(** * Santiago - Board Games Victory: the game ledger of [app.py]

    A shallow embedding of the ledger core of [app.py] (the functions
    [recalc_df], [upsert_jogo], [carregar_df], [salvar_df] and
    [df_para_csv_bytes], the report frames, and what the two forms and the
    save button do once submitted) together with the properties its
    specification states about them and further properties of the code.

    Modelling conventions.
    - A ledger frame is the list of its rows, in the order of its default
      index 0, 1, ...; the five columns of [CAMPOS] are the fields of the
      record [Jogo]. The frame read from a file whose first record is
      longer than the header carries the leading fields as its index
      instead: the statement about updating a loaded frame excludes such
      files.
    - A text (a Python [str], a field of the file) is the string of the
      bytes of its UTF-8 encoding. [str.strip] and [str.lower] belong to
      the language, which knows the whitespace and the letter cases of all
      of Unicode: they are parameters, [str_strip] and [str_lower], and
      what is assumed of them is stated where it is used. The frame
      library's [.str.strip()] and [.str.lower()] apply them to each text.
    - The quantity columns are columns of 64-bit integers, as [carregar_df]
      makes them. A quantity is an integer of [Z]; the subtraction of two
      columns wraps around, which [wrap64] writes out, and the assignment
      of an integer that does not fit to a cell raises. A frame that was
      not loaded may hold its quantities otherwise (the frame of a missing
      store has no typed column yet): what is stated of a credit and of an
      assignment is stated for integers that fit 64 bits together with
      their difference, on which every column type agrees.
    - [valor_credito] is a binary64 float, modelled by the inductive
      [spec_float] of the standard library with precision 53 and maximal
      exponent 1024; the missing value of the frame library is NaN.
    - The frame library's own functions are parameters: the text of floats
      ([str], the CSV reader's float literals, [pd.to_numeric] on a text),
      what the reader and [pd.to_numeric] make of a column of integers of
      which one does not fit 64 bits, the conversion of a float beyond the
      64-bit range to an integer, and [Series.sum]. The text of integers,
      the reader's missing-value tokens and its type inference are written
      out.
    - [astype(str)] gives the text nan for a missing value, as the frame
      library does up to its version 2; from version 3 on the value stays
      missing. What is stated of the names of a loaded table leaves out
      the names read from a missing cell, or the rows so named; that a
      name is lost on the way through the store holds either way.

    Left out: columns of the file other than those of [CAMPOS], which
    [app.py] carries along untouched, and the order of the columns of the
    file; the assignments [upsert_jogo] makes to the frame it is given when
    a row matches (only the frame it returns is modelled); calls of
    [upsert_jogo] for a new row with an integer outside the 64-bit range,
    which no form makes and which change the type of a column; the import
    of an uploaded file, which recomputes a frame that was not coerced; the
    widgets of the Streamlit pages and the encoding of the downloads. *)

From Stdlib Require Import ZArith Lia Bool List Ascii String DecimalString.
From Stdlib Require Import DecimalZ DecimalPos.
From Stdlib Require Import Floats.SpecFloat.
From stdpp Require Import base tactics option list strings gmap.

Local Open Scope string_scope.
Local Open Scope list_scope.

(** ** Texts *)

(** Dropping the longest prefix, then the longest suffix, of characters
    satisfying [p]. *)
Fixpoint lstrip_by (p : ascii -> bool) (l : list ascii) : list ascii :=
  match l with
  | c :: l' => if p c then lstrip_by p l' else l
  | [] => []
  end.

Definition rstrip_by (p : ascii -> bool) (l : list ascii) : list ascii :=
  rev (lstrip_by p (rev l)).

Definition strip_by (p : ascii -> bool) (l : list ascii) : list ascii :=
  rstrip_by p (lstrip_by p l).

(** [str.strip] and [str.lower] on the texts made of ASCII characters only.
    The examples, whose texts are of this kind, are computed with them; the
    ledger takes the functions of the language as parameters. *)
Module AsciiStr.

(** The ASCII characters for which [str.isspace] holds: TAB, LF, VT, FF,
    CR, the four separators FS, GS, RS, US, and the space. *)
Definition isspace (c : ascii) : bool :=
  let n := N_of_ascii c in
  ((9 <=? n)%N && (n <=? 13)%N) || ((28 <=? n)%N && (n <=? 32)%N).

Definition lower_char (c : ascii) : ascii :=
  let n := N_of_ascii c in
  if ((65 <=? n)%N && (n <=? 90)%N) then ascii_of_N (n + 32) else c.

Definition strip (s : string) : string :=
  string_of_list_ascii (strip_by isspace (list_ascii_of_string s)).

Fixpoint lower (s : string) : string :=
  match s with
  | EmptyString => EmptyString
  | String c s' => String (lower_char c) (lower s')
  end.

End AsciiStr.

(** ** Floats: binary64 *)

Definition float : Type := spec_float.

Module F64.

Definition prec : Z := 53.
Definition emax : Z := 1024.

(** [float(z)] for a Python integer: rounding to nearest, ties to even. *)
Definition of_Z (z : Z) : float := binary_normalize prec emax z 0 false.

Definition zero : float := S754_zero false.
Definition nan : float := S754_nan.

Definition isnan (x : float) : bool :=
  match x with S754_nan => true | _ => false end.

Definition eqb (x y : float) : bool := SFeqb x y.
Definition ltb (x y : float) : bool := SFltb x y.
Definition mul (x y : float) : float := SFmul prec emax x y.

(** [int(x)] for a float: truncation towards zero; undefined on the
    infinities and on NaN. *)
Definition trunc (x : float) : option Z :=
  match x with
  | S754_zero _ => Some 0%Z
  | S754_finite s m e =>
      let a := Z.shiftl (Zpos m) e in Some (if s then (- a)%Z else a)
  | S754_infinity _ | S754_nan => None
  end.

End F64.

(** ** Integers of 64 bits *)

Definition int64_min : Z := -9223372036854775808.
Definition int64_max : Z := 9223372036854775807.

Definition int64b (z : Z) : bool := (int64_min <=? z)%Z && (z <=? int64_max)%Z.

(** An integer that a 64-bit column holds. *)
Definition int64 (z : Z) : Prop := (int64_min <= z <= int64_max)%Z.

(** The 64-bit integer that an arithmetic result wraps around to. *)
Definition wrap64 (z : Z) : Z :=
  ((z - int64_min) mod 18446744073709551616 + int64_min)%Z.

(** ** The ledger *)

Definition CAMPOS : list string :=
  ["nome"; "qtd_ganha"; "qtd_ficar"; "qtd_credito"; "valor_credito"].

(** [DEFAULT_CREDITO = 59.0] *)
Definition DEFAULT_CREDITO : float := Eval vm_compute in F64.of_Z 59.

Record Jogo : Type := mkJogo {
  nome : string;
  qtd_ganha : Z;
  qtd_ficar : Z;
  qtd_credito : Z;
  valor_credito : float
}.

(** A ledger frame: its rows in index order. *)
Abbreviation DataFrame := (list Jogo).

(** [Series.fillna(d)] and [Series.replace(0, d)] on one float cell. A cell
    equal to zero is either [0.0] or [-0.0]. *)
Definition fillna (d x : float) : float := if F64.isnan x then d else x.
Definition replace_zero (d x : float) : float :=
  if F64.eqb x F64.zero then d else x.

(** [s.clip(lower=0)] on one integer cell. *)
Definition clip_lower0 (x : Z) : Z := Z.max x 0.

(** *** [recalc_df] *)

(** [df["qtd_ganha"] - df["qtd_ficar"]] is a subtraction of two columns of
    64-bit integers: it wraps around. *)
Definition recalc_row (r : Jogo) : Jogo :=
  {| nome := nome r;
     qtd_ganha := qtd_ganha r;
     qtd_ficar := qtd_ficar r;
     qtd_credito := clip_lower0 (wrap64 (qtd_ganha r - qtd_ficar r));
     valor_credito :=
       replace_zero DEFAULT_CREDITO (fillna DEFAULT_CREDITO (valor_credito r)) |}.

Definition recalc_df (df : DataFrame) : DataFrame := recalc_row <$> df.

(** ** Reports *)

(** A cell of a displayed or exported frame. *)
Inductive cell : Type :=
| CStr (s : string)
| CInt (z : Z)
| CFloat (x : float).

(** A report: its column labels, in order, and its rows. *)
Record Report : Type := mkReport {
  columns : list string;
  rows : list (list cell)
}.

(** [df[df["qtd_ficar"] > 0][["nome", "qtd_ganha", "qtd_ficar"]]] *)
Definition df_trazer (df : DataFrame) : Report :=
  {| columns := ["nome"; "qtd_ganha"; "qtd_ficar"];
     rows := (fun r => [CStr (nome r); CInt (qtd_ganha r); CInt (qtd_ficar r)])
               <$> filter (fun r => (0 < qtd_ficar r)%Z) df |}.

(** [qtd_credito * valor_credito]: the integer is converted to binary64
    and the product is rounded. *)
Definition total_credito (r : Jogo) : float :=
  F64.mul (F64.of_Z (qtd_credito r)) (valor_credito r).

Definition cols_ordem : list string :=
  ["nome"; "qtd_ganha"; "qtd_ficar"; "qtd_credito"; "valor_credito";
   "total_credito"].

Definition df_credito (df : DataFrame) : Report :=
  {| columns := cols_ordem;
     rows := (fun r => [CStr (nome r); CInt (qtd_ganha r); CInt (qtd_ficar r);
                        CInt (qtd_credito r); CFloat (valor_credito r);
                        CFloat (total_credito r)])
               <$> filter (fun r => (0 < qtd_credito r)%Z) df |}.

(** The frame of the report of all records: the ledger itself. *)
Definition todos (df : DataFrame) : Report :=
  {| columns := CAMPOS;
     rows := (fun r => [CStr (nome r); CInt (qtd_ganha r); CInt (qtd_ficar r);
                        CInt (qtd_credito r); CFloat (valor_credito r)]) <$> df |}.

(** The cells of one column of a report that hold floats. *)
Definition float_column (c : string) (rep : Report) : list float :=
  match list_find (String.eqb c) (columns rep) with
  | Some (j, _) =>
      omap (fun row => match row !! j with
                       | Some (CFloat x) => Some x
                       | _ => None
                       end) (rows rep)
  | None => []
  end.

Section Reports.

(** [Series.sum()] of a float column belongs to the frame library; its
    order of additions is not fixed by [app.py]. *)
Variable Series_sum : list float -> float.

(** [float(df_credito["total_credito"].sum()) if not df_credito.empty
    else 0.0] *)
Definition total_geral (df : DataFrame) : float :=
  let rep := df_credito df in
  if bool_decide (rows rep = []) then F64.zero
  else Series_sum (float_column "total_credito" rep).

End Reports.

(** ** The backing store [jogos.csv]: its texts and columns

    The file is modelled after its division into fields: a header line
    and the data lines, each a list of text fields (quoting, line endings
    and the skipping of blank lines belong to the CSV dialect and are not
    modelled). [read_csv] and [to_csv] follow the defaults of the frame
    library that [app.py] relies on: the reader's missing-value tokens,
    and its inference of a type for each column. *)

(** A number as the frame library reads or prints it. *)
Inductive num : Type :=
| NInt (z : Z)
| NFloat (x : float).

Definition num_float (n : num) : float :=
  match n with NInt z => F64.of_Z z | NFloat x => x end.

Definition num_int (n : num) : option Z :=
  match n with NInt z => Some z | NFloat _ => None end.

(** [str(z)] for an integer. *)
Definition int_repr (z : Z) : string := NilZero.string_of_int (Z.to_int z).

(** [str(b)] for a boolean. *)
Definition bool_repr (b : bool) : string := if b then "True" else "False".

(** The blanks the reader skips around an integer field. *)
Definition c_isspace (c : ascii) : bool :=
  let n := N_of_ascii c in (n =? 32)%N || ((9 <=? n)%N && (n <=? 13)%N).

Definition digits (ds : list ascii) : option Z :=
  Z.of_uint <$> NilZero.uint_of_string (string_of_list_ascii ds).

(** A field the reader takes for an integer: blanks, an optional sign,
    one or more decimal digits, blanks. *)
Definition int_literal (s : string) : option Z :=
  match strip_by c_isspace (list_ascii_of_string s) with
  | "-"%char :: ds => Z.opp <$> digits ds
  | "+"%char :: ds => digits ds
  | ds => digits ds
  end.

(** The reader's default missing-value tokens. *)
Definition NA_VALUES : list string :=
  [""; "#N/A"; "#N/A N/A"; "#NA"; "-1.#IND"; "-1.#QNAN"; "-NaN"; "-nan";
   "1.#IND"; "1.#QNAN"; "<NA>"; "N/A"; "NA"; "NULL"; "NaN"; "None"; "n/a";
   "nan"; "null"].

Definition is_na (s : string) : bool := bool_decide (s ∈ NA_VALUES).

Definition TRUE_VALUES : list string := ["True"; "TRUE"; "true"].
Definition FALSE_VALUES : list string := ["False"; "FALSE"; "false"].

(** A cell of a column of mixed content. *)
Inductive obj : Type :=
| OStr (s : string)
| ONaN
| OBool (b : bool).

(** A column of a frame as the reader returns it, by element type. A
    column of integers holds integers of 64 bits, signed or, when the
    reader found one that needs it, unsigned. *)
Inductive Series : Type :=
| IntCol (l : list Z)
| FloatCol (l : list float)
| BoolCol (l : list bool)
| ObjCol (l : list obj).

Definition series_length (s : Series) : nat :=
  match s with
  | IntCol l => List.length l
  | FloatCol l => List.length l
  | BoolCol l => List.length l
  | ObjCol l => List.length l
  end.

Record RawFrame : Type := mkRawFrame {
  nrows : nat;
  cols : gmap string Series
}.

Record Csv : Type := mkCsv {
  header : list string;
  lines : list (list string)
}.

(** The store: [None] when [jogos.csv] does not exist. *)
Definition Store : Type := option Csv.

(** What the reader makes of one field. *)
Inductive token : Type :=
| TNa
| TNum (n : num)
| TBool (b : bool)
| TText (s : string).

Definition token_int (t : token) : option Z :=
  match t with TNum (NInt z) => Some z | _ => None end.
Definition token_float (t : token) : option float :=
  match t with
  | TNum n => Some (num_float n)
  | TNa => Some F64.nan
  | _ => None
  end.
Definition token_bool (t : token) : option bool :=
  match t with TBool b => Some b | _ => None end.
Definition token_boolobj (t : token) : option obj :=
  match t with
  | TBool b => Some (OBool b)
  | TNa => Some ONaN
  | _ => None
  end.

Definition text_obj (s : string) : obj := if is_na s then ONaN else OStr s.

(** A column of integers and missing fields, one of the integers lying
    outside the signed 64-bit range. *)
Definition token_grande (t : token) : bool :=
  match t with TNum (NInt z) => negb (int64b z) | _ => false end.
Definition token_int_na (t : token) : bool :=
  match t with TNum (NInt _) | TNa => true | _ => false end.
Definition fora_int64 (ts : list token) : bool :=
  forallb token_int_na ts && existsb token_grande ts.

(** What the reader may make of such a column: unsigned integers (when no
    field is missing), floats, or the texts themselves. *)
Inductive grande : Type :=
| GUint
| GFloat
| GTexto.

(** The number of fields of the records of a file: that of the header, or
    that of the first data line when it is longer. *)
Definition largura (csv : Csv) : nat :=
  Nat.max (List.length (header csv)) (List.length (default [] (head (lines csv)))).

(** [pd.to_numeric(s, errors="coerce")]: the result is a numeric column. *)
Inductive NumSeries : Type :=
| NumInt (l : list Z)
| NumFloat (l : list float)
| NumBool (l : list bool).

(** [s.fillna(d)] on a numeric column. *)
Definition series_fillna (d : float) (s : NumSeries) : NumSeries :=
  match s with
  | NumFloat l => NumFloat (fillna d <$> l)
  | _ => s
  end.

(** [s.astype(float)] *)
Definition astype_float (s : NumSeries) : list float :=
  match s with
  | NumInt l => F64.of_Z <$> l
  | NumBool l => (fun b => F64.of_Z (Z.b2z b)) <$> l
  | NumFloat l => l
  end.

(** The rows of a frame whose five columns are given. *)
Fixpoint build_rows (n : list string) (g f c : list Z) (v : list float)
  : DataFrame :=
  match n, g, f, c, v with
  | n0 :: n', g0 :: g', f0 :: f', c0 :: c', v0 :: v' =>
      mkJogo n0 g0 f0 c0 v0 :: build_rows n' g' f' c' v'
  | _, _, _, _, _ => []
  end.

(** [if c not in df.columns: df[c] = 0] *)
Definition ensure_column (df : RawFrame) (c : string) : RawFrame :=
  match cols df !! c with
  | Some _ => df
  | None =>
      {| nrows := nrows df;
         cols := <[c := IntCol (replicate (nrows df) 0%Z)]> (cols df) |}
  end.

(** [mask.any()] *)
Definition any (mask : list bool) : bool := existsb id mask.

(** [df.index[mask][0]]: the position of the first selected row. It is only
    evaluated when [mask.any()] holds. *)
Fixpoint first_index (mask : list bool) : nat :=
  match mask with
  | [] => 0
  | b :: mask' => if b then 0 else S (first_index mask')
  end.

(** Assignments [df.at[idx, col] = v] to one cell of a row. *)
Definition set_qtd_ganha (v : Z) (r : Jogo) : Jogo :=
  mkJogo (nome r) v (qtd_ficar r) (qtd_credito r) (valor_credito r).
Definition set_qtd_ficar (v : Z) (r : Jogo) : Jogo :=
  mkJogo (nome r) (qtd_ganha r) v (qtd_credito r) (valor_credito r).
Definition set_valor_credito (v : float) (r : Jogo) : Jogo :=
  mkJogo (nome r) (qtd_ganha r) (qtd_ficar r) (qtd_credito r) v.

(** The integer that [df.at[idx, col] = z] writes to a cell of a 64-bit
    column; [None] stands for the exception raised when [z] does not fit. *)
Definition at_int (z : Z) : option Z := if int64b z then Some z else None.

(** [int(df.at[idx, "qtd_ganha"])], for a row [idx] of the frame. *)
Definition at_qtd_ganha (df : DataFrame) (idx : nat) : Z :=
  default 0%Z (qtd_ganha <$> df !! idx).

(** ** Texts of integers *)

(** A list that does not begin with a character that [p] strips. *)
Definition headless (p : ascii -> bool) (l : list ascii) : Prop :=
  match l with
  | c :: _ => p c = false
  | [] => True
  end.

(** Decimal digits. *)
Definition isdigit (c : ascii) : bool :=
  let n := N_of_ascii c in (48 <=? n)%N && (n <=? 57)%N.

(** ** Sample tables, files and libraries *)

(** Sample values: the floats -5.0, 10.0, 20.0 and 118.0, and rows built
    from them. *)
Definition neg5 : float := Eval vm_compute in F64.of_Z (-5).
Definition f10 : float := Eval vm_compute in F64.of_Z 10.
Definition f20 : float := Eval vm_compute in F64.of_Z 20.
Definition f118 : float := Eval vm_compute in F64.of_Z 118.

Definition catan : Jogo := mkJogo "Catan" 3 1 2 f10.

(** Catan under a name that is not trimmed. *)
Definition catan_espaco : Jogo := mkJogo " Catan" 3 1 2 f10.

(** Catan under a name in capitals, with other quantities. *)
Definition catan_maiusculo : Jogo := mkJogo "CATAN" 1 0 1 f10.

(** A row whose quantities are at the two ends of the 64-bit range. *)
Definition extremo : Jogo := mkJogo "Catan" int64_max (-1) 0 f10.

(** A well-formed ledger with one game, named NA. *)
Definition jogo_NA : Jogo := mkJogo "NA" 3 1 2 f10.

(** A file with one quantity column and one record, whose quantity is
    negative. *)
Definition csv_negativo : Csv := mkCsv ["qtd_ganha"] [["-3"]].

(** A file whose quantity is infinite. *)
Definition csv_infinito : Csv := mkCsv ["qtd_ganha"] [["inf"]].

(** A file whose quantity is a text that does not parse. *)
Definition csv_texto : Csv := mkCsv ["nome"; "qtd_ganha"] [[" Catan "; "abc"]].

(** A file with the name and the two quantities of one game. *)
Definition csv_catan : Csv :=
  mkCsv ["nome"; "qtd_ganha"; "qtd_ficar"] [["Catan"; "3"; "1"]].

(** A library for the examples. It prints the floats the examples meet as
    Python does, and reads these texts back; it knows no other float. Its
    [pd.to_numeric] reads the integers and these floats. Integers that are
    all natural numbers below 2^64 it holds as unsigned integers, and other
    columns with an integer beyond 64 bits as texts or floats; its platform
    converts a float beyond the 64-bit range to the least 64-bit
    integer. *)
Definition floats_exemplo : list (float * string) :=
  [(F64.zero, "0.0"); (f10, "10.0"); (f20, "20.0"); (DEFAULT_CREDITO, "59.0");
   (f118, "118.0"); (neg5, "-5.0")].

Fixpoint texto_de (t : list (float * string)) (x : float) : string :=
  match t with
  | (y, s) :: t' => if F64.eqb x y then s else texto_de t' x
  | [] => "?"
  end.

Fixpoint float_de (t : list (float * string)) (s : string) : option float :=
  match t with
  | (y, s') :: t' => if String.eqb s s' then Some y else float_de t' s
  | [] => None
  end.

Definition repr_exemplo (x : float) : string := texto_de floats_exemplo x.

Definition float_exemplo (s : string) : option float := float_de floats_exemplo s.

Definition numeric_exemplo (s : string) : option num :=
  match int_literal s with
  | Some z => Some (NInt z)
  | None => NFloat <$> float_exemplo s
  end.

Definition uint64_exemplo (l : list Z) : bool :=
  forallb (fun z => (0 <=? z)%Z && (z <? 18446744073709551616)%Z) l.

Definition grande_exemplo (fields : list string) : grande :=
  match mapM int_literal fields with
  | Some l => if uint64_exemplo l then GUint else GTexto
  | None => GTexto
  end.

Definition cast_exemplo (x : float) : Z := int64_min.

(** A reader that takes the text inf, and no other, for a float. *)
Definition float_inf_exemplo (s : string) : option float :=
  if String.eqb s "inf" then Some (S754_infinity false) else None.

(** * The ledger over the language and the frame library *)

Section Ledger.

(** [str.strip] and [str.lower] of the language. *)
Variable str_strip : string -> string.
Variable str_lower : string -> string.

(** The text of floats is the frame library's business: [float_repr] is
    [str(x)] for a float that is not NaN (used by [to_csv] and by
    [astype(str)]), [csv_float] is the reader's recognition of a field as a
    float, and [to_numeric_str] is what [pd.to_numeric] makes of a text
    cell ([None] when it cannot parse it). *)
Variable float_repr : float -> string.
Variable csv_float : string -> option float.
Variable to_numeric_str : string -> option num.

(** A column whose fields are all integers or missing, one of the integers
    lying outside the signed 64-bit range, is held by the reader as a
    column of unsigned integers, of floats or of texts: [csv_grande] tells
    which. Integers of which one lies outside that range are held by
    [pd.to_numeric] as unsigned integers or as floats: [num_uint64] tells
    whether as integers. *)
Variable csv_grande : list string -> grande.
Variable num_uint64 : list Z -> bool.

(** The conversion of a finite float beyond the 64-bit range to an integer
    is left to the platform: [cast_fora] is the integer it gives. *)
Variable cast_fora : float -> Z.

(** ** [upsert_jogo] *)

(** [df["nome"].str.lower() == nome.lower()] *)
Definition name_mask (df : DataFrame) (nome' : string) : list bool :=
  (fun r => String.eqb (str_lower (nome r)) (str_lower nome')) <$> df.

(** [None] stands for the exception of an assignment that does not fit. *)
Definition upsert_jogo (df : DataFrame) (nome' : option string)
    (qtd_ganha' qtd_ficar' : option Z) (valor_credito' : option float)
  : option DataFrame :=
  let nome' := str_strip (default "" nome') in
  if String.eqb nome' "" then Some df
  else
    let mask := name_mask df nome' in
    if negb (any mask) then
      Some (recalc_df
              (df ++ [ {| nome := nome';
                          qtd_ganha := default 0%Z qtd_ganha';
                          qtd_ficar := default 0%Z qtd_ficar';
                          qtd_credito := 0%Z;
                          valor_credito := default DEFAULT_CREDITO valor_credito' |} ])%list)
    else
      let idx := first_index mask in
      df1 ← match qtd_ganha' with
            | Some d =>
                z ← at_int (at_qtd_ganha df idx + d);
                Some (alter (set_qtd_ganha z) idx df)
            | None => Some df
            end;
      df2 ← match qtd_ficar' with
            | Some k => z ← at_int k; Some (alter (set_qtd_ficar z) idx df1)
            | None => Some df1
            end;
      let df3 :=
        match valor_credito' with
        | Some v => alter (set_valor_credito v) idx df2
        | None => df2
        end in
      Some (recalc_df df3).

(** ** [pd.read_csv] *)

Definition csv_number (s : string) : option num :=
  match int_literal s with
  | Some z => Some (NInt z)
  | None => NFloat <$> csv_float s
  end.

Definition classify (s : string) : token :=
  if is_na s then TNa
  else match csv_number s with
       | Some n => TNum n
       | None =>
           if bool_decide (s ∈ TRUE_VALUES) then TBool true
           else if bool_decide (s ∈ FALSE_VALUES) then TBool false
           else TText s
       end.

(** Type inference for one column: integers of 64 bits, else floats
    (missing fields become NaN), else booleans, else the texts themselves.
    A column of integers and missing fields with an integer outside the
    signed 64-bit range is what the library makes of it. *)
Definition infer_series (fields : list string) : Series :=
  let ts := classify <$> fields in
  let textos := ObjCol (text_obj <$> fields) in
  if fora_int64 ts then
    match csv_grande fields with
    | GUint => match mapM token_int ts with Some l => IntCol l | None => textos end
    | GFloat => match mapM token_float ts with Some l => FloatCol l | None => textos end
    | GTexto => textos
    end
  else
    match mapM token_int ts with
    | Some l => IntCol l
    | None =>
        match mapM token_float ts with
        | Some l => FloatCol l
        | None =>
            match mapM token_bool ts with
            | Some l => BoolCol l
            | None =>
                match mapM token_boolobj ts with
                | Some l => ObjCol l
                | None => textos
                end
            end
        end
    end.

(** [pd.read_csv]. It raises on a file without columns. The records have
    as many fields as the header, or as the first data line when that one
    is longer: the leading fields in excess are then the index of the
    frame and no column of it. A later line with more fields raises; a
    line with fewer is completed with missing fields. *)
Definition read_csv (csv : Csv) : option RawFrame :=
  if bool_decide (header csv = []) then None
  else if existsb (fun line => (largura csv <? List.length line)%nat) (lines csv)
  then None
  else
    let k := (largura csv - List.length (header csv))%nat in
    Some {| nrows := List.length (lines csv);
            cols := list_to_map
                      (imap (fun j h =>
                               (h, infer_series
                                     ((fun line => default "" (line !! (k + j)%nat))
                                        <$> lines csv)))
                            (header csv)) |}.

(** ** [carregar_df] *)

(** [pd.to_numeric(s, errors="coerce")]: a text that does not parse becomes
    NaN, and a column with a NaN or a float holds floats only; so does a
    column of integers that the library does not hold as integers. *)
Definition obj_num (o : obj) : num :=
  match o with
  | OStr s => default (NFloat F64.nan) (to_numeric_str s)
  | ONaN => NFloat F64.nan
  | OBool b => NInt (Z.b2z b)
  end.

Definition to_numeric (s : Series) : NumSeries :=
  match s with
  | IntCol l => NumInt l
  | FloatCol l => NumFloat l
  | BoolCol l => NumBool l
  | ObjCol l =>
      let ns := obj_num <$> l in
      match mapM num_int ns with
      | Some zs =>
          if forallb int64b zs || num_uint64 zs then NumInt zs
          else NumFloat (num_float <$> ns)
      | None => NumFloat (num_float <$> ns)
      end
  end.

(** The conversion of one float cell to a 64-bit integer: it raises on a
    float that is not finite, truncates a float within the range, and is
    left to the platform beyond it. *)
Definition to_int64 (x : float) : option Z :=
  z ← F64.trunc x;
  Some (if int64b z then z else wrap64 (cast_fora x)).

(** [s.astype(int)]: an integer outside the signed range (of an unsigned
    column) wraps around. *)
Definition astype_int (s : NumSeries) : option (list Z) :=
  match s with
  | NumInt l => Some (wrap64 <$> l)
  | NumBool l => Some (Z.b2z <$> l)
  | NumFloat l => mapM to_int64 l
  end.

(** [s.astype(str)] *)
Definition float_str (x : float) : string :=
  if F64.isnan x then "nan" else float_repr x.

Definition obj_str (o : obj) : string :=
  match o with
  | OStr s => s
  | ONaN => "nan"
  | OBool b => bool_repr b
  end.

Definition astype_str (s : Series) : list string :=
  match s with
  | IntCol l => int_repr <$> l
  | FloatCol l => float_str <$> l
  | BoolCol l => bool_repr <$> l
  | ObjCol l => obj_str <$> l
  end.

Definition coerce_qtd (s : Series) : option (list Z) :=
  astype_int (series_fillna (F64.of_Z 0) (to_numeric s)).

Definition coerce_valor (s : Series) : list float :=
  astype_float (series_fillna DEFAULT_CREDITO (to_numeric s)).

(** [None] stands for an exception. *)
Definition carregar_df (store : Store) : option DataFrame :=
  match store with
  | Some csv =>
      df ← read_csv csv;
      let df := foldl ensure_column df CAMPOS in
      n ← cols df !! "nome";
      g ← cols df !! "qtd_ganha" ≫= coerce_qtd;
      f ← cols df !! "qtd_ficar" ≫= coerce_qtd;
      c ← cols df !! "qtd_credito" ≫= coerce_qtd;
      v ← coerce_valor <$> cols df !! "valor_credito";
      Some (recalc_df (build_rows (str_strip <$> astype_str n) g f c v))
  | None => Some (recalc_df [])
  end.

(** ** [salvar_df] *)

Definition float_field (x : float) : string :=
  if F64.isnan x then "" else float_repr x.

(** [df.to_csv(path, index=False)]: the header and one line per record. *)
Definition to_csv (df : DataFrame) : Csv :=
  {| header := CAMPOS;
     lines := (fun r => [nome r; int_repr (qtd_ganha r); int_repr (qtd_ficar r);
                         int_repr (qtd_credito r);
                         float_field (valor_credito r)]) <$> df |}.

(** The store after [salvar_df(df)]: whatever it held is overwritten. *)
Definition salvar_df (df : DataFrame) (store : Store) : Store :=
  Some (to_csv (recalc_df df)).

(** ** The pages *)

(** *** [df_para_csv_bytes]

    The fields of the text [df.to_csv(buf, index=False)] writes for a frame
    that is shown and exported: the header holds the column labels, and a
    cell is written as [to_csv] writes it (a missing float as the empty
    field). The encoding of the text in UTF-8 is not modelled. *)
Definition cell_text (c : cell) : string :=
  match c with
  | CStr s => s
  | CInt z => int_repr z
  | CFloat x => float_field x
  end.

Definition df_para_csv (rep : Report) : Csv :=
  {| header := columns rep;
     lines := (fun row : list cell => cell_text <$> row) <$> rows rep |}.

(** *** The forms *)

(** [reg = df[df["nome"] == alvo].iloc[0] if alvo else None]: the first
    row of that very name. [None] stands for the two ways the form fails
    to be built: the [IndexError] of an empty selection, and the
    [TypeError] of reading a field of [None] when the name is empty. *)
Definition reg_de (df : DataFrame) (alvo : string) : option Jogo :=
  if String.eqb alvo "" then None
  else snd <$> list_find (fun r => nome r = alvo) df.

(** The form "Cadastrar novo jogo", submitted: the table loaded for the
    page is upserted and saved. The number inputs give integers and a
    float, never a null. [None] stands for an exception, which leaves the
    store as it was. *)
Definition cadastrar (store : Store) (nome_novo : string)
    (qtd_ganha_novo qtd_ficar_novo : Z) (valor_credito_novo : float)
  : option Store :=
  df ← carregar_df store;
  df ← upsert_jogo df (Some nome_novo) (Some qtd_ganha_novo)
         (Some qtd_ficar_novo) (Some valor_credito_novo);
  Some (salvar_df df store).

(** The form "Atualizar jogo existente", submitted for the selected name
    [alvo]. *)
Definition atualizar (store : Store) (alvo : string)
    (add_ganha set_ficar : Z) (set_valor : float) : option Store :=
  df ← carregar_df store;
  df ← upsert_jogo df (Some alvo) (Some add_ganha) (Some set_ficar)
         (Some set_valor);
  Some (salvar_df df store).

(** The button "Forçar salvar agora". *)
Definition forcar_salvar (store : Store) : option Store :=
  df_atual ← carregar_df store;
  Some (salvar_df df_atual store).

(** * Notions the statements use *)

(** ** Names *)

(** A name is blank when [str.strip] leaves nothing of it: it is empty or
    made of whitespace only. *)
Definition blank (s : string) : Prop := str_strip s = "".

(** A name is trimmed when [str.strip] leaves it as it is. *)
Definition trimmed (s : string) : Prop := str_strip s = s.

(** The key under which the specification compares names: trimmed, then
    lower-cased. *)
Definition name_key (s : string) : string := str_lower (str_strip s).

(** The comparison [upsert_jogo] makes: the stored name, as it is stored,
    against the trimmed given name, both lower-cased. *)
Definition stored_match (given : string) (r : Jogo) : Prop :=
  str_lower (nome r) = str_lower (str_strip given).

(** The comparison the specification words: both names trimmed and
    lower-cased. *)
Definition key_match (given : string) (r : Jogo) : Prop :=
  name_key (nome r) = name_key given.

(** ** Rows *)

(** What [recalc_df] makes of a credit value: the default when it is
    missing or zero, the value itself otherwise. *)
Definition valor_recalc (x : float) : float :=
  if F64.isnan x || F64.eqb x F64.zero then DEFAULT_CREDITO else x.

(** The credit [recalc_df] computes from the two quantities. *)
Definition credito (g f : Z) : Z := Z.max 0 (wrap64 (g - f)).

(** The row [upsert_jogo] appends, before [recalc_df]. *)
Definition nova_linha (nome' : string) (g f : option Z) (v : option float) : Jogo :=
  mkJogo nome' (default 0%Z g) (default 0%Z f) 0 (default DEFAULT_CREDITO v).

(** The row [upsert_jogo] leaves at the matched index, before [recalc_df]. *)
Definition linha_atualizada (g f : option Z) (v : option float) (r : Jogo) : Jogo :=
  mkJogo (nome r)
    (match g with Some d => qtd_ganha r + d | None => qtd_ganha r end)%Z
    (default (qtd_ficar r) f) (qtd_credito r) (default (valor_credito r) v).

(** The integers an update writes to row [r] fit a 64-bit column. *)
Definition cabeb (g f : option Z) (r : Jogo) : bool :=
  match g with Some d => int64b (qtd_ganha r + d) | None => true end
  && match f with Some k => int64b k | None => true end.

Definition cabe (g f : option Z) (r : Jogo) : Prop :=
  match g with Some d => int64 (qtd_ganha r + d) | None => True end
  /\ match f with Some k => int64 k | None => True end.

(** The integers of a new row, and their difference, fit a 64-bit column. *)
Definition cabe_nova (g f : option Z) : Prop :=
  int64 (default 0%Z g) /\ int64 (default 0%Z f)
  /\ int64 (default 0%Z g - default 0%Z f).

(** A row of a frame with 64-bit quantity columns. *)
Definition linha_int64 (r : Jogo) : Prop :=
  int64 (qtd_ganha r) /\ int64 (qtd_ficar r).

(** The quantities won and kept of a row, and their difference, fit 64
    bits. *)
Definition dif_int64 (r : Jogo) : Prop :=
  linha_int64 r /\ int64 (qtd_ganha r - qtd_ficar r).

(** [keeps P l l']: [l'] holds exactly the elements of [l] that satisfy
    [P], each as often as in [l] and in the order of [l]. *)
Inductive keeps {A : Type} (P : A -> Prop) : list A -> list A -> Prop :=
| keeps_nil : keeps P [] []
| keeps_take (x : A) (l l' : list A) :
    P x -> keeps P l l' -> keeps P (x :: l) (x :: l')
| keeps_skip (x : A) (l l' : list A) :
    ~ P x -> keeps P l l' -> keeps P (x :: l) l'.

(** The cells of a row of the "for credit" report. *)
Definition linha_credito (r : Jogo) : list cell :=
  [CStr (nome r); CInt (qtd_ganha r); CInt (qtd_ficar r); CInt (qtd_credito r);
   CFloat (valor_credito r);
   CFloat (F64.mul (F64.of_Z (qtd_credito r)) (valor_credito r))].

(** ** Cells of the store *)

(** Column [c] of a frame once [carregar_df] has made sure it exists: the
    column as read, or a column of zeros. *)
Definition coluna (raw : RawFrame) (c : string) : Series :=
  default (IntCol (replicate (nrows raw) 0%Z)) (cols raw !! c).

(** What [astype(int)] makes of an integer and of a float that is not
    missing: the integer itself when it fits 64 bits. *)
Definition int_de_float (x : float) (q : Z) : Prop :=
  exists z, F64.trunc x = Some z
            /\ q = if int64b z then z else wrap64 (cast_fora x).

(** What [fillna(0)] and [astype(int)] make of a float cell: 0 when it is
    missing. *)
Definition qtd_de_float (x : float) (q : Z) : Prop :=
  if F64.isnan x then q = 0%Z else int_de_float x q.

(** What [carregar_df] makes of cell [i] of a quantity column, of the
    credit value column and of the name column, read cell by cell. The
    column is [None] when the file does not have it. A text that
    [pd.to_numeric] reads as an integer is converted as an integer when the
    whole column is held as integers, and as a float otherwise. *)
Definition qtd_lida (col : option Series) (i : nat) (q : Z) : Prop :=
  match col with
  | None => q = 0%Z
  | Some (IntCol l) => exists z, l !! i = Some z /\ q = wrap64 z
  | Some (BoolCol l) => exists b, l !! i = Some b /\ q = Z.b2z b
  | Some (FloatCol l) => exists x, l !! i = Some x /\ qtd_de_float x q
  | Some (ObjCol l) =>
      exists o, l !! i = Some o
                /\ match o with
                   | OStr t =>
                       match to_numeric_str t with
                       | None => q = 0%Z
                       | Some (NInt z) =>
                           q = wrap64 z \/ qtd_de_float (F64.of_Z z) q
                       | Some (NFloat x) => qtd_de_float x q
                       end
                   | ONaN => q = 0%Z
                   | OBool b => q = Z.b2z b
                   end
  end.

Definition valor_lido (col : option Series) (i : nat) (v : float) : Prop :=
  match col with
  | None => v = DEFAULT_CREDITO
  | Some (IntCol l) => exists z, l !! i = Some z /\ v = valor_recalc (F64.of_Z z)
  | Some (BoolCol l) =>
      exists b, l !! i = Some b /\ v = valor_recalc (F64.of_Z (Z.b2z b))
  | Some (FloatCol l) => exists x, l !! i = Some x /\ v = valor_recalc x
  | Some (ObjCol l) =>
      exists o, l !! i = Some o
                /\ match o with
                   | OStr t =>
                       match to_numeric_str t with
                       | None => v = DEFAULT_CREDITO
                       | Some n => v = valor_recalc (num_float n)
                       end
                   | ONaN => v = DEFAULT_CREDITO
                   | OBool b => v = valor_recalc (F64.of_Z (Z.b2z b))
                   end
  end.

(** Of the name read from a missing cell nothing is stated: the text that
    [astype(str)] makes of it depends on the version of the frame
    library. *)
Definition nome_lido (col : option Series) (i : nat) (s : string) : Prop :=
  match col with
  | None => s = str_strip "0"
  | Some (IntCol l) => exists z, l !! i = Some z /\ s = str_strip (int_repr z)
  | Some (BoolCol l) => exists b, l !! i = Some b /\ s = str_strip (bool_repr b)
  | Some (FloatCol l) =>
      exists x, l !! i = Some x
                /\ (F64.isnan x = false -> s = str_strip (float_repr x))
  | Some (ObjCol l) =>
      exists o, l !! i = Some o
                /\ match o with
                   | OStr t => s = str_strip t
                   | ONaN => True
                   | OBool b => s = str_strip (bool_repr b)
                   end
  end.

Definition isinf (x : float) : bool :=
  match x with S754_infinity _ => true | _ => false end.

(** A quantity column on which [astype(int)] does not raise: it holds no
    infinite value, also after [pd.to_numeric] has read its texts. *)
Definition qtd_finita (col : option Series) : Prop :=
  match col with
  | Some (FloatCol l) => Forall (fun x => isinf x = false) l
  | Some (ObjCol l) =>
      Forall (fun o => match o with
                       | OStr t =>
                           match to_numeric_str t with
                           | Some n => isinf (num_float n) = false
                           | None => True
                           end
                       | _ => True
                       end) l
  | _ => True
  end.

(** The frame the reader returns for the file [to_csv] writes: one column
    per field of [CAMPOS], inferred from the texts written for it. *)
Definition frame_escrito (df : DataFrame) : RawFrame :=
  {| nrows := List.length df;
     cols :=
       list_to_map
         [("nome", infer_series (nome <$> df));
          ("qtd_ganha", infer_series ((fun r => int_repr (qtd_ganha r)) <$> df));
          ("qtd_ficar", infer_series ((fun r => int_repr (qtd_ficar r)) <$> df));
          ("qtd_credito", infer_series ((fun r => int_repr (qtd_credito r)) <$> df));
          ("valor_credito",
            infer_series ((fun r => float_field (valor_credito r)) <$> df))] |}.

(** A store whose frame carries the default index: its first record is
    not longer than the header. *)
Definition indice_padrao (store : Store) : Prop :=
  match store with
  | Some csv => largura csv = List.length (header csv)
  | None => True
  end.

(** ** Arguments of two upserts in a row *)

(** The quantities won that two upserts add, taken together. *)
Definition soma_opt (g1 g2 : option Z) : option Z :=
  match g1, g2 with
  | Some a, Some b => Some (a + b)%Z
  | Some a, None => Some a
  | None, _ => g2
  end.

(** The later of two optional values, when it is given. *)
Definition ultimo {A : Type} (x1 x2 : option A) : option A :=
  match x2 with Some _ => x2 | None => x1 end.

(** A quantity as a number input of the forms gives it: not negative and
    within 64 bits. *)
Definition qtd_form (z : Z) : Prop := (0 <= z <= int64_max)%Z.

(** A row with quantities that are not negative and a credit value that
    is not negative (a missing one is allowed). *)
Definition linha_valida (r : Jogo) : Prop :=
  qtd_form (qtd_ganha r) /\ qtd_form (qtd_ficar r)
  /\ F64.ltb (valor_credito r) F64.zero = false.

(** What holds of a row once it is recomputed: the credit is the excess
    of the quantity won over the quantity kept, it lies between 0 and the
    quantity won, and the credit value is positive. *)
Definition linha_recalculada (r : Jogo) : Prop :=
  qtd_credito r = Z.max 0 (qtd_ganha r - qtd_ficar r)
  /\ (0 <= qtd_credito r <= qtd_ganha r)%Z
  /\ F64.ltb F64.zero (valor_credito r) = true.

(** * Properties *)

(** ** Facts about stripping *)

Section StripBy.

Variable p : ascii -> bool.

Lemma lstrip_by_headless (l : list ascii) : headless p (lstrip_by p l).
Proof.
  induction l as [|c l IH]; simpl; [exact I|].
  destruct (p c) eqn:Hc; [exact IH | exact Hc].
Qed.

Lemma lstrip_by_fixed (l : list ascii) : headless p l -> lstrip_by p l = l.
Proof. destruct l as [|c l]; simpl; [reflexivity|]. now intros ->. Qed.

Lemma lstrip_by_snoc (l : list ascii) (c : ascii) :
  p c = false -> lstrip_by p (l ++ [c]) = lstrip_by p l ++ [c].
Proof.
  intros Hc. induction l as [|d l IH]; simpl.
  - now rewrite Hc.
  - destruct (p d); [exact IH | reflexivity].
Qed.

Lemma rstrip_by_headless (l : list ascii) :
  headless p l -> headless p (rstrip_by p l).
Proof.
  unfold rstrip_by. destruct l as [|c l]; simpl; [intros _; exact I|].
  intros Hc. rewrite lstrip_by_snoc by exact Hc.
  rewrite rev_app_distr. simpl. exact Hc.
Qed.

Lemma rstrip_by_idem (l : list ascii) :
  rstrip_by p (rstrip_by p l) = rstrip_by p l.
Proof.
  unfold rstrip_by. rewrite rev_involutive.
  now rewrite (lstrip_by_fixed _ (lstrip_by_headless _)).
Qed.

Lemma strip_by_idem (l : list ascii) :
  strip_by p (strip_by p l) = strip_by p l.
Proof.
  unfold strip_by.
  rewrite (lstrip_by_fixed (rstrip_by p _)).
  - apply rstrip_by_idem.
  - apply rstrip_by_headless, lstrip_by_headless.
Qed.

Lemma strip_by_fixed (l : list ascii) :
  Forall (fun c => p c = false) l -> strip_by p l = l.
Proof.
  intros H. unfold strip_by, rstrip_by.
  assert (L : forall m, Forall (fun c => p c = false) m -> lstrip_by p m = m).
  { intros [|c m] Hm; [reflexivity|]. simpl. inversion Hm as [|? ? Hc _]. now rewrite Hc. }
  rewrite (L l H). rewrite L.
  - apply rev_involutive.
  - apply Forall_forall. intros c Hc.
    apply list_elem_of_In, in_rev, list_elem_of_In in Hc.
    rewrite Forall_forall in H. now apply H.
Qed.

End StripBy.

(** The functions of the examples have what is assumed of [str.strip] and
    [str.lower]. *)
Lemma ascii_strip_idem (s : string) :
  AsciiStr.strip (AsciiStr.strip s) = AsciiStr.strip s.
Proof.
  unfold AsciiStr.strip.
  now rewrite list_ascii_of_string_of_list_ascii, strip_by_idem.
Qed.

Lemma ascii_strip_empty : AsciiStr.strip "" = "".
Proof. reflexivity. Qed.

Lemma ascii_lower_empty (s : string) :
  AsciiStr.lower s = AsciiStr.lower "" -> s = "".
Proof. destruct s; [reflexivity | discriminate]. Qed.

(** ** Integers of 64 bits *)

Lemma int64b_spec (z : Z) : int64b z = true <-> int64 z.
Proof. unfold int64b, int64. lia. Qed.

Lemma wrap64_int64 (z : Z) : int64 z -> wrap64 z = z.
Proof.
  unfold int64, wrap64, int64_min, int64_max. intros H.
  rewrite Z.mod_small; lia.
Qed.

Lemma int64_wrap64 (z : Z) : int64 (wrap64 z).
Proof.
  unfold int64, wrap64, int64_min, int64_max.
  pose proof (Z.mod_pos_bound (z - -9223372036854775808) 18446744073709551616).
  lia.
Qed.

Lemma wrap64_idem (z : Z) : wrap64 (wrap64 z) = wrap64 z.
Proof. apply wrap64_int64, int64_wrap64. Qed.

Lemma at_int_Some (z : Z) : int64 z -> at_int z = Some z.
Proof. intros H. unfold at_int. now rewrite (proj2 (int64b_spec z) H). Qed.

Lemma credito_max (g f : Z) : int64 (g - f) -> credito g f = Z.max 0 (g - f).
Proof. intros H. unfold credito. now rewrite wrap64_int64. Qed.

Lemma credito_int64 (g f : Z) : int64 (credito g f).
Proof.
  unfold credito. pose proof (int64_wrap64 (g - f)) as H.
  unfold int64, int64_min, int64_max in *. lia.
Qed.

Lemma qtd_form_int64 (z : Z) : qtd_form z -> int64 z.
Proof. unfold qtd_form, int64, int64_min. lia. Qed.

Lemma qtd_form_diff (g f : Z) : qtd_form g -> qtd_form f -> int64 (g - f).
Proof. unfold qtd_form, int64, int64_min, int64_max. lia. Qed.

(** ** [recalc_df] *)

Lemma replace_fillna_recalc (x : float) :
  replace_zero DEFAULT_CREDITO (fillna DEFAULT_CREDITO x) = valor_recalc x.
Proof. destruct x as [s|s| |s m e]; try destruct s; reflexivity. Qed.

Lemma valor_recalc_not_nan (x : float) : F64.isnan (valor_recalc x) = false.
Proof. destruct x as [s|s| |s m e]; try destruct s; reflexivity. Qed.

Lemma valor_recalc_not_zero (x : float) :
  F64.eqb (valor_recalc x) F64.zero = false.
Proof. destruct x as [s|s| |s m e]; try destruct s; reflexivity. Qed.

Lemma valor_recalc_idem (x : float) : valor_recalc (valor_recalc x) = valor_recalc x.
Proof. destruct x as [s|s| |s m e]; try destruct s; reflexivity. Qed.

Lemma valor_recalc_positive (x : float) :
  F64.ltb x F64.zero = false -> F64.ltb F64.zero (valor_recalc x) = true.
Proof.
  destruct x as [s|s| |s m e]; try destruct s; intros H;
    first [reflexivity | discriminate H].
Qed.

Lemma recalc_row_fields (r : Jogo) :
  recalc_row r
  = mkJogo (nome r) (qtd_ganha r) (qtd_ficar r)
      (credito (qtd_ganha r) (qtd_ficar r)) (valor_recalc (valor_credito r)).
Proof.
  unfold recalc_row, clip_lower0, credito.
  now rewrite replace_fillna_recalc, Z.max_comm.
Qed.

Lemma recalc_row_idem (r : Jogo) : recalc_row (recalc_row r) = recalc_row r.
Proof. rewrite !recalc_row_fields. simpl. now rewrite valor_recalc_idem. Qed.

Lemma recalc_df_lookup (df : DataFrame) (i : nat) :
  recalc_df df !! i = recalc_row <$> df !! i.
Proof. apply list_lookup_fmap. Qed.

Lemma recalc_df_length (df : DataFrame) :
  List.length (recalc_df df) = List.length df.
Proof. apply length_fmap. Qed.

Lemma recalc_df_app (df1 df2 : DataFrame) :
  recalc_df (df1 ++ df2) = recalc_df df1 ++ recalc_df df2.
Proof. apply fmap_app. Qed.

Lemma recalc_df_nomes (df : DataFrame) : nome <$> recalc_df df = nome <$> df.
Proof.
  unfold recalc_df. rewrite <- list_fmap_compose.
  apply list_fmap_ext. intros _ r _. reflexivity.
Qed.

Lemma recalc_df_fixed (df : DataFrame) : recalc_df (recalc_df df) = recalc_df df.
Proof.
  unfold recalc_df. rewrite <- list_fmap_compose.
  apply list_fmap_ext. intros _ r _. apply recalc_row_idem.
Qed.

(** A row of a table that is its own recomputation. *)
Lemma recalc_df_fixed_row (df : DataFrame) (i : nat) (r : Jogo) :
  recalc_df df = df -> df !! i = Some r -> recalc_row r = r.
Proof.
  intros Hre Hi. pose proof (f_equal (fun l => l !! i) Hre) as E. simpl in E.
  rewrite recalc_df_lookup, Hi in E. simpl in E. now injection E.
Qed.

(** C7. [recalc_df] is idempotent: recomputing a recomputed table changes
    nothing. *)
Theorem recalc_df_idempotent (df : DataFrame) :
  recalc_df (recalc_df df) = recalc_df df.
Proof.
  unfold recalc_df. rewrite <- list_fmap_compose.
  apply list_fmap_ext. intros _ r _. apply recalc_row_idem.
Qed.

(** C2, as stated, fails. A negative credit value is neither missing nor
    zero, so [recalc_df] keeps it, and the row it belongs to does not have
    [valor_credito > 0]. And the difference of two 64-bit quantities wraps
    around: for 9223372036854775807 won and -1 kept the credit is 0, not
    the maximum of 0 and the difference. *)
Lemma recalc_df_keeps_negative_valor :
  (exists r', r' ∈ recalc_df [mkJogo "Catan" 1 0 0 neg5]
              /\ F64.ltb F64.zero (valor_credito r') = false)
  /\ (exists r', r' ∈ recalc_df [extremo]
                 /\ qtd_credito r' = 0%Z
                 /\ Z.max 0 (qtd_ganha r' - qtd_ficar r') = 9223372036854775808%Z).
Proof.
  split.
  - exists (mkJogo "Catan" 1 0 1 neg5). split; [|reflexivity].
    apply list_elem_of_singleton. reflexivity.
  - exists (mkJogo "Catan" int64_max (-1) 0 f10). split; [|split; reflexivity].
    apply list_elem_of_singleton. reflexivity.
Qed.

(** C2, amended. Every row of [recalc_df df] whose quantities won and
    kept fit 64 bits together with their difference has
    [qtd_credito = max(0, qtd_ganha - qtd_ficar)], and every row has a
    credit value that is neither missing nor zero: a missing or zero value
    of [df] has been replaced by [DEFAULT_CREDITO] and any other value is
    kept, so that [valor_credito > 0] holds whenever the value in [df] was
    not negative. *)
Theorem recalc_df_invariant (df : DataFrame) (i : nat) (r' : Jogo) :
  recalc_df df !! i = Some r' ->
  (dif_int64 r' -> qtd_credito r' = Z.max 0 (qtd_ganha r' - qtd_ficar r'))
  /\ F64.isnan (valor_credito r') = false
  /\ F64.eqb (valor_credito r') F64.zero = false
  /\ exists r,
       df !! i = Some r
       /\ valor_credito r'
          = (if F64.isnan (valor_credito r) || F64.eqb (valor_credito r) F64.zero
             then DEFAULT_CREDITO else valor_credito r)
       /\ (F64.ltb (valor_credito r) F64.zero = false ->
           F64.ltb F64.zero (valor_credito r') = true).
Proof.
  rewrite recalc_df_lookup. destruct (df !! i) as [r|] eqn:Hr; [|discriminate].
  simpl. intros [= <-]. rewrite recalc_row_fields. simpl.
  split; [intros [_ Hd]; now apply credito_max|].
  split; [apply valor_recalc_not_nan|].
  split; [apply valor_recalc_not_zero|].
  exists r. split; [reflexivity|]. split; [reflexivity|].
  apply valor_recalc_positive.
Qed.

(** [recalc_df_invariant] at a row with a missing credit value, whose
    quantities are 3 won and 1 kept. *)
Lemma recalc_df_invariant_witness :
  let r' := mkJogo "Risk" 3 1 2 DEFAULT_CREDITO in
  recalc_df [mkJogo "Risk" 3 1 0 F64.nan] !! 0%nat = Some r'
  /\ qtd_credito r' = Z.max 0 (qtd_ganha r' - qtd_ficar r')
  /\ F64.isnan (valor_credito r') = false
  /\ F64.eqb (valor_credito r') F64.zero = false
  /\ F64.ltb F64.zero (valor_credito r') = true.
Proof.
  destruct (recalc_df_invariant [mkJogo "Risk" 3 1 0 F64.nan] 0 _ eq_refl)
    as (Hmax & Hnan & Hzero & r & Hr & _ & Hpos).
  split; [reflexivity|].
  split; [apply Hmax; repeat split; discriminate|].
  split; [exact Hnan|]. split; [exact Hzero|].
  apply Hpos. injection Hr as <-. reflexivity.
Defined.

(** ** [upsert_jogo] *)

(** What is assumed of [str.strip] and [str.lower], by the statements
    whose proofs use it: stripping what is stripped changes nothing, the
    empty text stays empty, and only the empty text has the lower case of
    the empty text. *)
Hypothesis str_strip_idem : forall s, str_strip (str_strip s) = str_strip s.
Hypothesis str_strip_empty : str_strip "" = "".
Hypothesis str_lower_empty : forall s, str_lower s = str_lower "" -> s = "".

Lemma strip_trimmed (s : string) : trimmed (str_strip s).
Proof. apply str_strip_idem. Qed.

Lemma name_key_strip (s : string) : name_key (str_strip s) = name_key s.
Proof. unfold name_key. now rewrite str_strip_idem. Qed.

Lemma name_key_trimmed (s : string) : trimmed s -> name_key s = str_lower s.
Proof. unfold name_key, trimmed. now intros ->. Qed.

(** On a trimmed stored name the comparison of [upsert_jogo] is that of
    the specification. *)
Lemma stored_match_key (given : string) (r : Jogo) :
  trimmed (nome r) -> stored_match given r -> key_match given r.
Proof.
  unfold key_match, stored_match. intros Ht.
  rewrite (name_key_trimmed _ Ht). now unfold name_key.
Qed.

Lemma key_match_stored (given : string) (r : Jogo) :
  trimmed (nome r) -> key_match given r -> stored_match given r.
Proof.
  unfold key_match, stored_match. intros Ht.
  rewrite (name_key_trimmed _ Ht). now unfold name_key.
Qed.

Lemma any_false_iff (mask : list bool) :
  any mask = false <-> forall i, mask !! i <> Some true.
Proof.
  unfold any. induction mask as [|b mask IH]; simpl.
  - split; [intros _ i; rewrite lookup_nil; discriminate | reflexivity].
  - destruct b; simpl.
    + split; [discriminate|]. intros H. now destruct (H 0%nat).
    + rewrite IH. split.
      * intros H [|i]; [discriminate | apply H].
      * intros H i. apply (H (S i)).
Qed.

Lemma first_index_lookup (mask : list bool) :
  any mask = true -> mask !! first_index mask = Some true.
Proof.
  unfold any. induction mask as [|b mask IH]; simpl; [discriminate|].
  destruct b; simpl; [reflexivity | exact IH].
Qed.

Lemma first_index_least (mask : list bool) (j : nat) :
  mask !! j = Some true -> (first_index mask <= j)%nat.
Proof.
  revert j. induction mask as [|b mask IH]; intros j; simpl.
  - rewrite lookup_nil. discriminate.
  - destruct b; [lia|]. destruct j as [|j]; simpl; [discriminate|].
    intros H. apply IH in H. lia.
Qed.

Lemma first_index_app_true (mask : list bool) :
  any mask = false -> first_index (mask ++ [true]) = List.length mask.
Proof.
  induction mask as [|b mask IH]; [reflexivity|].
  unfold any. simpl. destruct b; [discriminate|]. intros H.
  simpl. f_equal. now apply IH.
Qed.

Lemma any_app_true (mask : list bool) : any (mask ++ [true]) = true.
Proof. unfold any. rewrite existsb_app. simpl. apply orb_true_r. Qed.

Lemma name_mask_lookup (df : DataFrame) (s : string) (i : nat) :
  name_mask df s !! i = Some true
  <-> exists r, df !! i = Some r /\ str_lower (nome r) = str_lower s.
Proof.
  unfold name_mask. rewrite list_lookup_fmap.
  destruct (df !! i) as [r|]; simpl.
  - destruct (String.eqb_spec (str_lower (nome r)) (str_lower s)) as [E|E].
    + split; [intros _; now exists r | reflexivity].
    + split; [discriminate | intros (r' & [= <-] & E'); contradiction].
  - split; [discriminate | intros (r' & H & _); discriminate].
Qed.

Lemma name_mask_none (df : DataFrame) (given : string) :
  any (name_mask df (str_strip given)) = false
  <-> forall r, r ∈ df -> ~ stored_match given r.
Proof.
  rewrite any_false_iff. split.
  - intros H r Hr Hm. apply list_elem_of_lookup in Hr as [i Hi].
    apply (H i). apply name_mask_lookup. now exists r.
  - intros H i Hi. apply name_mask_lookup in Hi as (r & Hr & Hm).
    apply (H r); [now apply list_elem_of_lookup_2 with i | exact Hm].
Qed.

Lemma name_mask_some (df : DataFrame) (given : string) :
  any (name_mask df (str_strip given)) = true
  <-> exists r, r ∈ df /\ stored_match given r.
Proof.
  split.
  - intros H. apply first_index_lookup, name_mask_lookup in H as (r & Hr & Hm).
    exists r. split; [now apply list_elem_of_lookup_2 in Hr | exact Hm].
  - intros (r & Hr & Hm). destruct (any _) eqn:E; [reflexivity|].
    pose proof (proj1 (name_mask_none _ _) E) as E'. now destruct (E' r Hr).
Qed.

(** The mask depends on the name through its lower case only, and on the
    table through its names only. *)
Lemma name_mask_lower (df : DataFrame) (a b : string) :
  str_lower a = str_lower b -> name_mask df a = name_mask df b.
Proof. intros E. unfold name_mask. now rewrite E. Qed.

Lemma name_mask_nomes (df : DataFrame) (s : string) :
  name_mask df s
  = (fun n => String.eqb (str_lower n) (str_lower s)) <$> (nome <$> df).
Proof. unfold name_mask. now rewrite <- list_fmap_compose. Qed.

Lemma upsert_jogo_blank (df : DataFrame) (nome' : option string)
    (g f : option Z) (v : option float) :
  str_strip (default "" nome') = "" -> upsert_jogo df nome' g f v = Some df.
Proof. unfold upsert_jogo. now intros ->. Qed.

Lemma upsert_jogo_new (df : DataFrame) (given : string)
    (g f : option Z) (v : option float) :
  str_strip given <> "" ->
  any (name_mask df (str_strip given)) = false ->
  upsert_jogo df (Some given) g f v
  = Some (recalc_df (df ++ [nova_linha (str_strip given) g f v])).
Proof.
  intros Hne Hany. unfold upsert_jogo. simpl.
  destruct (String.eqb_spec (str_strip given) ""); [contradiction|].
  now rewrite Hany.
Qed.

Lemma cabeb_spec (g f : option Z) (r : Jogo) : cabeb g f r = true <-> cabe g f r.
Proof.
  unfold cabeb, cabe. rewrite andb_true_iff.
  destruct g, f; rewrite ?int64b_spec; tauto.
Qed.

(** What [upsert_jogo] does when a stored name is accepted: it raises when
    an integer it writes does not fit, and otherwise returns the
    recomputed table with the first accepted row updated. *)
Lemma upsert_jogo_match (df : DataFrame) (given : string)
    (g f : option Z) (v : option float) (r : Jogo) :
  str_strip given <> "" ->
  any (name_mask df (str_strip given)) = true ->
  df !! first_index (name_mask df (str_strip given)) = Some r ->
  upsert_jogo df (Some given) g f v
  = if cabeb g f r
    then Some (recalc_df (alter (linha_atualizada g f v)
                            (first_index (name_mask df (str_strip given))) df))
    else None.
Proof.
  intros Hne Hany Hr. unfold upsert_jogo, cabeb. simpl.
  destruct (String.eqb_spec (str_strip given) ""); [contradiction|].
  rewrite Hany. simpl.
  set (idx := first_index (name_mask df (str_strip given))) in *.
  assert (Hat : at_qtd_ganha df idx = qtd_ganha r).
  { unfold at_qtd_ganha. now rewrite Hr. }
  destruct g as [d|], f as [k|], v as [x|]; simpl;
    rewrite ?Hat; unfold at_int;
    repeat match goal with
           | |- context [int64b ?z] => destruct (int64b z); simpl
           end;
    try reflexivity;
    rewrite ?list_alter_alter_eq; do 2 f_equal;
    first [ symmetry; apply list_alter_id; intros []; reflexivity
          | apply list_alter_ext; [|reflexivity];
            intros y Hy; rewrite Hr in Hy; injection Hy as <-; reflexivity ].
Qed.

Lemma upsert_jogo_existing (df : DataFrame) (given : string)
    (g f : option Z) (v : option float) (r : Jogo) :
  str_strip given <> "" ->
  any (name_mask df (str_strip given)) = true ->
  df !! first_index (name_mask df (str_strip given)) = Some r ->
  cabe g f r ->
  upsert_jogo df (Some given) g f v
  = Some (recalc_df (alter (linha_atualizada g f v)
                       (first_index (name_mask df (str_strip given))) df)).
Proof.
  intros Hne Hany Hr Hc. rewrite (upsert_jogo_match df given g f v r) by assumption.
  now rewrite (proj2 (cabeb_spec g f r) Hc).
Qed.

(** The first selected row: the first row that the comparison accepts. *)
Lemma first_index_first_match (df : DataFrame) (given : string) (i : nat) (r : Jogo) :
  df !! i = Some r -> stored_match given r ->
  (forall j r', (j < i)%nat -> df !! j = Some r' -> ~ stored_match given r') ->
  any (name_mask df (str_strip given)) = true
  /\ first_index (name_mask df (str_strip given)) = i.
Proof.
  intros Hi Hm Hfirst.
  assert (Hany : any (name_mask df (str_strip given)) = true).
  { apply name_mask_some. exists r. split; [|exact Hm].
    eapply list_elem_of_lookup_2; exact Hi. }
  split; [exact Hany|].
  assert (Hle : (first_index (name_mask df (str_strip given)) <= i)%nat).
  { apply first_index_least. apply name_mask_lookup. exists r. now split. }
  pose proof (first_index_lookup _ Hany) as Hk.
  apply name_mask_lookup in Hk as (r' & Hr' & Hm').
  destruct (decide (first_index (name_mask df (str_strip given)) = i)) as [E|N];
    [exact E|].
  exfalso. refine (Hfirst _ r' _ Hr' Hm'). lia.
Qed.

(** The first selected row, when a single row is selected. *)
Lemma first_index_stored_match (df : DataFrame) (given : string) (i : nat) (r : Jogo) :
  df !! i = Some r -> stored_match given r ->
  (forall j r', df !! j = Some r' -> stored_match given r' -> j = i) ->
  any (name_mask df (str_strip given)) = true
  /\ first_index (name_mask df (str_strip given)) = i.
Proof.
  intros Hi Hm Huniq. apply (first_index_first_match df given i r Hi Hm).
  intros j r' Hj Hr' Hm'. pose proof (Huniq j r' Hr' Hm'). lia.
Qed.

Lemma alter_atualizada_nomes (g f : option Z) (v : option float) (i : nat)
    (df : DataFrame) :
  nome <$> alter (linha_atualizada g f v) i df = nome <$> df.
Proof.
  rewrite (list_fmap_alter nome (linha_atualizada g f v) id).
  - now apply list_alter_id.
  - apply Forall_forall. intros r _. reflexivity.
Qed.

Lemma alter_lookup_insert {A : Type} (h : A -> A) (l : list A) (i : nat) (x : A) :
  l !! i = Some x -> alter h i l = <[i := h x]> l.
Proof.
  intros Hi. apply list_eq. intros j.
  destruct (decide (i = j)) as [<-|N].
  - rewrite list_lookup_alter_eq, Hi, list_lookup_insert_eq; [reflexivity|].
    eapply lookup_lt_Some; exact Hi.
  - now rewrite list_lookup_alter_ne, list_lookup_insert_ne.
Qed.

(** What [upsert_jogo] returns, when it returns: the given table when the
    name is blank, the recomputed table with a row appended when no stored
    name is accepted, and the recomputed table with the first accepted row
    updated otherwise. *)
Lemma upsert_jogo_Some (df df' : DataFrame) (given : string)
    (g f : option Z) (v : option float) :
  upsert_jogo df (Some given) g f v = Some df' ->
  (str_strip given = "" /\ df' = df)
  \/ (str_strip given <> ""
      /\ any (name_mask df (str_strip given)) = false
      /\ df' = recalc_df (df ++ [nova_linha (str_strip given) g f v]))
  \/ (str_strip given <> ""
      /\ any (name_mask df (str_strip given)) = true
      /\ df' = recalc_df (alter (linha_atualizada g f v)
                            (first_index (name_mask df (str_strip given))) df)).
Proof.
  intros H.
  destruct (decide (str_strip given = "")) as [E|E].
  { left. rewrite upsert_jogo_blank in H by exact E. now injection H as <-. }
  right.
  destruct (any (name_mask df (str_strip given))) eqn:Hany.
  - right. split; [exact E|]. split; [reflexivity|].
    pose proof (first_index_lookup _ Hany) as Hk.
    apply name_mask_lookup in Hk as (r & Hr & _).
    rewrite (upsert_jogo_match df given g f v r) in H by assumption.
    destruct (cabeb g f r); [now injection H as <- | discriminate H].
  - left. split; [exact E|]. split; [reflexivity|].
    rewrite upsert_jogo_new in H by assumption. now injection H as <-.
Qed.

(** The names of the returned table: those of the given table, in order,
    followed by the trimmed given name when no stored name was accepted. *)
Lemma upsert_jogo_nomes (df df' : DataFrame) (given : string)
    (g f : option Z) (v : option float) :
  str_strip given <> "" ->
  upsert_jogo df (Some given) g f v = Some df' ->
  nome <$> df'
  = (nome <$> df)
    ++ (if any (name_mask df (str_strip given)) then [] else [str_strip given]).
Proof.
  intros Hnb H.
  apply upsert_jogo_Some in H as [[E _] | [(_ & Hany & ->) | (_ & Hany & ->)]];
    [contradiction| |]; rewrite Hany.
  - now rewrite recalc_df_nomes, fmap_app.
  - now rewrite recalc_df_nomes, alter_atualizada_nomes, app_nil_r.
Qed.

Lemma upsert_jogo_strip (df : DataFrame) (given : string)
    (g f : option Z) (v : option float) :
  upsert_jogo df (Some given) g f v
  = upsert_jogo df (Some (str_strip given)) g f v.
Proof. unfold upsert_jogo. simpl. now rewrite str_strip_idem. Qed.

(** [upsert_jogo] returns a table when the integers it writes fit. *)
Lemma upsert_jogo_returns_given (df : DataFrame) (given : string)
    (g f : option Z) (v : option float) :
  (forall r, r ∈ df -> cabe g f r) ->
  is_Some (upsert_jogo df (Some given) g f v).
Proof.
  intros Hc.
  destruct (decide (str_strip given = "")) as [E|E].
  { rewrite upsert_jogo_blank by exact E. eexists. reflexivity. }
  destruct (any (name_mask df (str_strip given))) eqn:Hany.
  - pose proof (first_index_lookup _ Hany) as Hk.
    apply name_mask_lookup in Hk as (r & Hr & _).
    rewrite (upsert_jogo_existing df given g f v r E Hany Hr);
      [eexists; reflexivity|].
    apply Hc. eapply list_elem_of_lookup_2; exact Hr.
  - rewrite (upsert_jogo_new df given g f v E Hany). eexists. reflexivity.
Qed.

Lemma upsert_jogo_returns (df : DataFrame) (nome' : option string)
    (g f : option Z) (v : option float) :
  (forall r, r ∈ df -> cabe g f r) ->
  is_Some (upsert_jogo df nome' g f v).
Proof.
  intros Hc. destruct nome' as [given|]; [now apply upsert_jogo_returns_given|].
  rewrite upsert_jogo_blank by exact str_strip_empty. eexists. reflexivity.
Qed.

(** C9. A name that is null, empty or made of whitespace only (one of which
    [str.strip] leaves nothing) makes [upsert_jogo] return the table it was
    given, unchanged, and raise no error. *)
Theorem upsert_jogo_blank_name (df : DataFrame) (nome' : option string)
    (g f : option Z) (v : option float) :
  (nome' = None \/ exists s, nome' = Some s /\ blank s) ->
  upsert_jogo df nome' g f v = Some df.
Proof.
  intros [-> | (s & -> & Hs)]; apply upsert_jogo_blank; simpl.
  - exact str_strip_empty.
  - exact Hs.
Qed.

(** C1, amended. Let the stored names be trimmed, the given name not be
    blank, and exactly one row match it, both names trimmed and compared
    case-insensitively; let the integers to write fit 64 bits. Then
    [upsert_jogo] returns a table in which that row has [qtd_ganha']
    added to its [qtd_ganha] when it is given, [qtd_ficar] replaced by
    [qtd_ficar'] when it is given, [valor_credito] replaced by
    [valor_credito'] when it is given, and each of the three as it was
    otherwise; the credit value returned has gone through [recalc_df] (a
    missing or zero value reads [DEFAULT_CREDITO]), and [qtd_credito] is
    recomputed from the two quantities: it is the maximum of 0 and their
    difference when they fit 64 bits together with their difference. *)
Theorem upsert_jogo_updates_match (df : DataFrame) (given : string)
    (g f : option Z) (v : option float) (i : nat) (r : Jogo) :
  ~ blank given ->
  Forall trimmed (nome <$> df) ->
  df !! i = Some r ->
  key_match given r ->
  (forall j r', df !! j = Some r' -> key_match given r' -> j = i) ->
  cabe g f r ->
  exists df' r',
    upsert_jogo df (Some given) g f v = Some df'
    /\ df' !! i = Some r'
    /\ nome r' = nome r
    /\ qtd_ganha r'
       = (match g with Some d => qtd_ganha r + d | None => qtd_ganha r end)%Z
    /\ qtd_ficar r' = (match f with Some k => k | None => qtd_ficar r end)
    /\ valor_credito r'
       = valor_recalc (match v with Some x => x | None => valor_credito r end)
    /\ (dif_int64 r' ->
        qtd_credito r' = Z.max 0 (qtd_ganha r' - qtd_ficar r')).
Proof.
  intros Hnb Htrim Hi Hkey Huniq Hcabe.
  assert (Ht : forall j r', df !! j = Some r' -> trimmed (nome r')).
  { intros j r' Hj. eapply Forall_lookup_1; [exact Htrim|].
    now rewrite list_lookup_fmap, Hj. }
  destruct (first_index_stored_match df given i r Hi) as [Hany Hidx].
  - apply key_match_stored; [exact (Ht i r Hi) | exact Hkey].
  - intros j r' Hj Hm. apply (Huniq j r' Hj).
    apply stored_match_key; [exact (Ht j r' Hj) | exact Hm].
  - rewrite (upsert_jogo_existing df given g f v r); try assumption;
      [|now rewrite Hidx].
    rewrite Hidx. eexists _, _. split; [reflexivity|].
    rewrite recalc_df_lookup, list_lookup_alter_eq, Hi. simpl.
    split; [reflexivity|]. rewrite recalc_row_fields. simpl.
    split; [reflexivity|]. split; [reflexivity|].
    split; [now destruct f|]. split; [now destruct v|].
    intros [_ Hd]. now apply credito_max.
Qed.

(** C4, amended. For a name that is not blank and that the comparison of
    [upsert_jogo] finds in no row (the stored name against the trimmed
    given name, both lower-cased; in a table of trimmed names this is the
    comparison of the specification), and integers that fit 64 bits
    together with their difference, [upsert_jogo] returns the recomputed
    table followed by exactly one new row: its name is the trimmed name,
    [qtd_ganha] is [qtd_ganha'] or 0, [qtd_ficar] is [qtd_ficar'] or 0,
    [valor_credito] is [valor_credito'] when that is given and neither
    zero nor missing and [DEFAULT_CREDITO] otherwise, and [qtd_credito] is
    the maximum of 0 and the difference of the two quantities. *)
Theorem upsert_jogo_inserts (df : DataFrame) (given : string)
    (g f : option Z) (v : option float) :
  ~ blank given ->
  (forall r, r ∈ df -> ~ stored_match given r) ->
  cabe_nova g f ->
  upsert_jogo df (Some given) g f v
  = Some (recalc_df df
            ++ [ mkJogo (str_strip given) (default 0%Z g) (default 0%Z f)
                   (Z.max 0 (default 0 g - default 0 f))%Z
                   (valor_recalc (default DEFAULT_CREDITO v)) ]).
Proof.
  intros Hnb Hnone (_ & _ & Hd).
  rewrite upsert_jogo_new.
  - rewrite recalc_df_app. simpl. rewrite recalc_row_fields. simpl.
    now rewrite (credito_max _ _ Hd).
  - exact Hnb.
  - now apply name_mask_none.
Qed.

(** C3, amended. On a table whose stored names are trimmed and unique
    under case-insensitive comparison, the table [upsert_jogo] returns has
    names that are again trimmed and unique under trimmed case-insensitive
    comparison, whatever name it is given; it returns a table whenever the
    integers it writes to a row, and those of a new row with their
    difference, fit 64 bits; and a name with surrounding whitespace does
    what the trimmed name does. *)
Theorem upsert_jogo_preserves_unique_names (df : DataFrame)
    (nome' : option string) (g f : option Z) (v : option float) :
  Forall trimmed (nome <$> df) ->
  NoDup (name_key <$> (nome <$> df)) ->
  (forall df',
      upsert_jogo df nome' g f v = Some df' ->
      Forall trimmed (nome <$> df') /\ NoDup (name_key <$> (nome <$> df')))
  /\ ((forall r, r ∈ df -> cabe g f r) -> cabe_nova g f ->
      is_Some (upsert_jogo df nome' g f v))
  /\ (forall given,
        upsert_jogo df (Some given) g f v
        = upsert_jogo df (Some (str_strip given)) g f v).
Proof.
  intros Htrim Huniq.
  split; [|split; [intros Hc _; now apply upsert_jogo_returns
                  | intros; apply upsert_jogo_strip]].
  intros df' Hup.
  destruct nome' as [given|].
  2:{ rewrite upsert_jogo_blank in Hup by exact str_strip_empty.
      injection Hup as <-. auto. }
  destruct (string_dec (str_strip given) "") as [E|E].
  { rewrite upsert_jogo_blank in Hup by exact E. injection Hup as <-. auto. }
  rewrite (upsert_jogo_nomes df df' given g f v E Hup).
  destruct (any (name_mask df (str_strip given))) eqn:Hany.
  - rewrite app_nil_r. auto.
  - split.
    + apply Forall_app. split; [exact Htrim|].
      apply Forall_singleton, strip_trimmed.
    + rewrite fmap_app. apply NoDup_app. split; [exact Huniq|].
      split; [|apply NoDup_singleton].
      intros k Hk Hin. apply list_elem_of_singleton in Hin. subst k.
      apply list_elem_of_fmap in Hk as (n & Hkey & Hn).
      apply list_elem_of_fmap in Hn as (r & -> & Hr).
      pose proof (proj1 (name_mask_none _ _) Hany r Hr) as Hno.
      apply Hno, key_match_stored.
      * eapply Forall_forall in Htrim; [exact Htrim|].
        now apply list_elem_of_fmap_2.
      * unfold key_match. now rewrite <- Hkey, name_key_strip.
Qed.

(** C10, amended. Let the stored names be trimmed, the given name not be
    blank and the integers given fit 64 bits. [upsert_jogo] returns a table
    whenever the integers it writes to a row, and the difference of those
    of a new row, fit 64 bits. In the table it returns, every row whose
    trimmed lower-cased name differs from that of the given name is the
    row of the given table at the same index with [nome], [qtd_ganha] and
    [qtd_ficar] unchanged, and with [qtd_credito] and [valor_credito] as
    [recalc_df] sets them (the credit to the maximum of 0 and the
    difference of the quantities, when these fit 64 bits together with
    their difference); the rows of the given table keep their order; when
    no row matches, the returned table is the recomputed table with one
    row appended at the end, so the row count grows by exactly one; and
    the row count is unchanged when a row matches. *)
Theorem upsert_jogo_frame (df : DataFrame) (given : string)
    (g f : option Z) (v : option float) :
  ~ blank given ->
  Forall trimmed (nome <$> df) ->
  int64 (default 0%Z g) ->
  int64 (default 0%Z f) ->
  ((forall r, r ∈ df -> cabe g f r) ->
   int64 (default 0%Z g - default 0%Z f) ->
   is_Some (upsert_jogo df (Some given) g f v))
  /\ forall df',
       upsert_jogo df (Some given) g f v = Some df' ->
       (forall i r',
           df' !! i = Some r' ->
           ~ key_match given r' ->
           exists r,
             df !! i = Some r
             /\ nome r' = nome r
             /\ qtd_ganha r' = qtd_ganha r
             /\ qtd_ficar r' = qtd_ficar r
             /\ (dif_int64 r ->
                 qtd_credito r' = Z.max 0 (qtd_ganha r - qtd_ficar r))
             /\ valor_credito r' = valor_recalc (valor_credito r))
       /\ nome <$> take (List.length df) df' = nome <$> df
       /\ ((forall r, r ∈ df -> ~ key_match given r) ->
           (exists r, df' = recalc_df df ++ [r] /\ nome r = str_strip given)
           /\ List.length df' = S (List.length df))
       /\ ((exists r, r ∈ df /\ key_match given r) ->
           List.length df' = List.length df).
Proof.
  intros Hne Htrim _ _.
  split; [intros Hc _; now apply upsert_jogo_returns_given|].
  intros df' Hup.
  assert (Ht : forall r, r ∈ df -> trimmed (nome r)).
  { intros r Hr. eapply Forall_forall in Htrim; [exact Htrim|].
    now apply list_elem_of_fmap_2. }
  pose proof (upsert_jogo_nomes df df' given g f v Hne Hup) as Hnomes.
  apply upsert_jogo_Some in Hup as [[E _] | [(_ & Hany & ->) | (_ & Hany & ->)]];
    [contradiction| |].
  - (* no stored name was accepted *)
    split; [|split; [|split]].
    + intros i r' Hi Hkey. rewrite recalc_df_lookup in Hi.
      destruct ((df ++ [nova_linha (str_strip given) g f v]) !! i)
        as [r0|] eqn:Hr0; [|discriminate].
      simpl in Hi. injection Hi as <-.
      apply lookup_app_Some in Hr0 as [Hl | [_ Hr]].
      * exists r0. rewrite recalc_row_fields. simpl.
        split; [exact Hl|]. do 3 (split; [reflexivity|]).
        split; [intros [_ Hd]; now apply credito_max | reflexivity].
      * apply list_lookup_singleton_Some in Hr as [_ <-].
        destruct Hkey. unfold key_match. simpl. apply name_key_strip.
    + rewrite fmap_take, Hnomes, Hany.
      rewrite <- (length_fmap nome df). apply take_app_length.
    + intros _. rewrite recalc_df_app. split.
      * eexists. split; [reflexivity|]. reflexivity.
      * rewrite length_app, recalc_df_length. simpl. lia.
    + intros (r & Hr & Hkey). exfalso.
      apply (proj1 (name_mask_none _ _) Hany r Hr).
      apply key_match_stored; [now apply Ht | exact Hkey].
  - (* the first accepted row is updated *)
    set (idx := first_index (name_mask df (str_strip given))) in *.
    pose proof (first_index_lookup _ Hany) as Hm.
    apply name_mask_lookup in Hm as (r & Hr & Hm). fold idx in Hr.
    assert (Hin : r ∈ df) by (eapply list_elem_of_lookup_2; exact Hr).
    split; [|split; [|split]].
    + intros i r' Hi Hkey. rewrite recalc_df_lookup in Hi.
      destruct (decide (idx = i)) as [<-|Hneq].
      * rewrite list_lookup_alter_eq, Hr in Hi. simpl in Hi. injection Hi as <-.
        destruct Hkey. apply (stored_match_key given r (Ht r Hin) Hm).
      * rewrite list_lookup_alter_ne in Hi by exact Hneq.
        destruct (df !! i) as [r0|]; [|discriminate]. simpl in Hi.
        injection Hi as <-. exists r0. rewrite recalc_row_fields. simpl.
        do 4 (split; [reflexivity|]).
        split; [intros [_ Hd]; now apply credito_max | reflexivity].
    + rewrite fmap_take, Hnomes, Hany, app_nil_r.
      rewrite <- (length_fmap nome df). apply firstn_all.
    + intros Hnone. exfalso. apply (Hnone r Hin).
      apply (stored_match_key given r (Ht r Hin) Hm).
    + intros _. now rewrite recalc_df_length, length_alter.
Qed.

(** ** More on [upsert_jogo] *)

(** X1. When the given name is not blank, row [i] is the first row whose
    name equals it without regard to letter case (the given name stripped,
    the stored one as it is), and the integers to write fit 64 bits,
    [upsert_jogo] returns the recomputation of the given frame with row
    [i] alone updated: rows that match further down are not touched. *)
Theorem upsert_jogo_first_match (df : DataFrame) (given : string)
    (g f : option Z) (v : option float) (i : nat) (r : Jogo) :
  ~ blank given ->
  df !! i = Some r ->
  stored_match given r ->
  (forall j r', (j < i)%nat -> df !! j = Some r' -> ~ stored_match given r') ->
  cabe g f r ->
  upsert_jogo df (Some given) g f v
  = Some (recalc_df (<[i := linha_atualizada g f v r]> df)).
Proof.
  intros Hb Hi Hm Hfirst Hc.
  destruct (first_index_first_match df given i r Hi Hm Hfirst) as [Hany Hidx].
  rewrite (upsert_jogo_existing df given g f v r); try assumption;
    [|now rewrite Hidx].
  rewrite Hidx. do 2 f_equal. now apply alter_lookup_insert.
Qed.

Lemma recalc_row_valida (r : Jogo) :
  linha_valida r -> linha_valida (recalc_row r) /\ linha_recalculada (recalc_row r).
Proof.
  intros (Hg & Hf & Hv). rewrite recalc_row_fields.
  unfold linha_valida, linha_recalculada. simpl.
  rewrite (credito_max _ _ (qtd_form_diff _ _ Hg Hf)).
  pose proof (valor_recalc_positive _ Hv) as Hp.
  assert (Hn : F64.ltb (valor_recalc (valor_credito r)) F64.zero = false).
  { revert Hp. destruct (valor_recalc (valor_credito r)) as [s|s| |s m e];
      try destruct s; simpl; intros H; first [reflexivity | discriminate H]. }
  unfold qtd_form in *. repeat split; try assumption; lia.
Qed.

(** X2. [upsert_jogo] keeps a ledger valid. Let every row have quantities
    that are not negative and a credit value that is not negative, let the
    quantities and the credit value given (those that are given) be not
    negative, and let the quantity won of no row leave the 64-bit range
    when the quantity given is added. Then an upsert under a name that is
    not blank returns a table, and in it every row still has valid
    quantities and credit value, its credit is max(0, won - kept) and lies
    between 0 and the quantity won, and its credit value is positive. *)
Theorem upsert_jogo_valida (df : DataFrame) (given : string)
    (g f : option Z) (v : option float) :
  ~ blank given ->
  Forall linha_valida df ->
  qtd_form (default 0%Z g) -> qtd_form (default 0%Z f) ->
  F64.ltb (default F64.zero v) F64.zero = false ->
  (forall r, r ∈ df -> (qtd_ganha r + default 0 g <= int64_max)%Z) ->
  exists df',
    upsert_jogo df (Some given) g f v = Some df'
    /\ Forall (fun r => linha_valida r /\ linha_recalculada r) df'.
Proof.
  intros Hb Hdf Hg Hf Hv Hfit.
  assert (Hre : forall l, Forall linha_valida l ->
            Forall (fun r => linha_valida r /\ linha_recalculada r) (recalc_df l)).
  { intros l Hl. unfold recalc_df. apply Forall_fmap.
    eapply Forall_impl; [exact Hl|]. intros r Hr. now apply recalc_row_valida. }
  destruct (any (name_mask df (str_strip given))) eqn:E.
  - pose proof (first_index_lookup _ E) as Hk.
    apply name_mask_lookup in Hk as (r & Hr & _).
    assert (Hin : r ∈ df) by (eapply list_elem_of_lookup_2; exact Hr).
    assert (Hval : linha_valida r) by (eapply Forall_forall in Hdf; eauto).
    eexists. split.
    + apply (upsert_jogo_existing df given g f v r); try assumption.
      pose proof (Hfit r Hin) as Hmax. destruct Hval as (Hrg & _ & _).
      unfold cabe, qtd_form, int64, int64_min, int64_max in *.
      destruct g, f; simpl in *; repeat split; try exact I; lia.
    + apply Hre. apply Forall_alter; [exact Hdf|].
      intros r0 Hr0 (Hrg & Hrf & Hrv).
      assert (Hin0 : r0 ∈ df) by (eapply list_elem_of_lookup_2; exact Hr0).
      pose proof (Hfit r0 Hin0) as Hmax.
      unfold linha_valida, linha_atualizada, qtd_form in *.
      destruct g, f, v; simpl in *; repeat split; try assumption; lia.
  - eexists. split; [now apply upsert_jogo_new|].
    apply Hre. apply Forall_app. split; [exact Hdf|].
    apply Forall_singleton. unfold linha_valida, nova_linha. simpl.
    split; [exact Hg|]. split; [exact Hf|].
    destruct v; [exact Hv | reflexivity].
Qed.

(** X3. Submitting the update form as it is first shown changes nothing:
    for a recomputed frame whose names are trimmed and differ pairwise
    without regard to case, with [reg] the row the form reads its defaults
    from, whose quantity won fits 64 bits, [upsert_jogo] with 0 to add,
    the kept quantity of [reg] and the credit value of [reg] returns the
    frame itself. *)
Theorem upsert_jogo_form_defaults (df : DataFrame) (alvo : string) (r : Jogo) :
  recalc_df df = df ->
  Forall trimmed (nome <$> df) ->
  NoDup (name_key <$> (nome <$> df)) ->
  reg_de df alvo = Some r ->
  linha_int64 r ->
  upsert_jogo df (Some alvo) (Some 0%Z) (Some (qtd_ficar r))
    (Some (valor_credito r)) = Some df.
Proof.
  intros Hre Htrim Hnd Hreg [Hrg Hrf]. unfold reg_de in Hreg.
  destruct (String.eqb alvo "") eqn:Ee; [discriminate|].
  apply String.eqb_neq in Ee.
  destruct (list_find (fun r0 => nome r0 = alvo) df) as [[i r0]|] eqn:Ef;
    [|discriminate].
  simpl in Hreg. injection Hreg as ->.
  apply list_find_Some in Ef as (Hi & Hn & _).
  assert (Htr : forall j r', df !! j = Some r' -> trimmed (nome r')).
  { intros j r' Hj. eapply Forall_lookup_1; [exact Htrim|].
    now rewrite list_lookup_fmap, Hj. }
  assert (Ht : trimmed alvo) by (rewrite <- Hn; exact (Htr i r Hi)).
  assert (Hs : str_strip alvo <> "") by (now rewrite Ht).
  assert (Hm : stored_match alvo r) by (unfold stored_match; now rewrite Ht, Hn).
  destruct (first_index_stored_match df alvo i r Hi Hm) as [Hany Hidx].
  { intros j r' Hj Hm'.
    apply (stored_match_key alvo r' (Htr j r' Hj)) in Hm'.
    apply (stored_match_key alvo r (Htr i r Hi)) in Hm.
    unfold key_match in *.
    eapply NoDup_lookup; [exact Hnd| |].
    - rewrite !list_lookup_fmap, Hj. simpl. reflexivity.
    - rewrite !list_lookup_fmap, Hi. simpl. now rewrite Hm, Hm'. }
  rewrite (upsert_jogo_existing df alvo _ _ _ r); try assumption;
    [|now rewrite Hidx|split; simpl; [now rewrite Z.add_0_r | exact Hrf]].
  rewrite Hidx, (alter_lookup_insert _ _ _ _ Hi).
  replace (linha_atualizada _ _ _ r) with r.
  - now rewrite list_insert_id, Hre.
  - destruct r. unfold linha_atualizada. simpl. f_equal. lia.
Qed.

(** *** Two upserts in a row *)

Lemma recalc_linha_atualizada_twice (g1 g2 f1 f2 : option Z) (v1 v2 : option float)
    (r : Jogo) :
  recalc_row (linha_atualizada g2 f2 v2 (recalc_row (linha_atualizada g1 f1 v1 r)))
  = recalc_row (linha_atualizada (soma_opt g1 g2) (ultimo f1 f2) (ultimo v1 v2) r).
Proof.
  rewrite !recalc_row_fields. unfold linha_atualizada. simpl.
  assert (Eg : (match g2 with
                | Some d => match g1 with
                            | Some d0 => qtd_ganha r + d0
                            | None => qtd_ganha r
                            end + d
                | None => match g1 with
                          | Some d0 => qtd_ganha r + d0
                          | None => qtd_ganha r
                          end
                end
               = match soma_opt g1 g2 with
                 | Some d => qtd_ganha r + d
                 | None => qtd_ganha r
                 end)%Z).
  { destruct g1, g2; simpl; lia. }
  assert (Ef : default (default (qtd_ficar r) f1) f2
               = default (qtd_ficar r) (ultimo f1 f2)).
  { now destruct f1, f2. }
  assert (Ev : valor_recalc (default (valor_recalc (default (valor_credito r) v1)) v2)
               = valor_recalc (default (valor_credito r) (ultimo v1 v2))).
  { destruct v1, v2; simpl; try reflexivity; apply valor_recalc_idem. }
  now rewrite Eg, Ef, Ev.
Qed.

Lemma recalc_nova_linha_twice (n : string) (g1 g2 f1 f2 : option Z)
    (v1 v2 : option float) :
  recalc_row (linha_atualizada g2 f2 v2 (recalc_row (nova_linha n g1 f1 v1)))
  = recalc_row (nova_linha n (soma_opt g1 g2) (ultimo f1 f2) (ultimo v1 v2)).
Proof.
  rewrite !recalc_row_fields. unfold linha_atualizada, nova_linha. simpl.
  assert (Eg : (match g2 with
                | Some d => default 0 g1 + d
                | None => default 0 g1
                end = default 0 (soma_opt g1 g2))%Z).
  { destruct g1, g2; simpl; lia. }
  assert (Ef : default (default 0%Z f1) f2 = default 0%Z (ultimo f1 f2)).
  { now destruct f1, f2. }
  assert (Ev : valor_recalc (default (valor_recalc (default DEFAULT_CREDITO v1)) v2)
               = valor_recalc (default DEFAULT_CREDITO (ultimo v1 v2))).
  { destruct v1, v2; simpl; try reflexivity; apply valor_recalc_idem. }
  now rewrite Eg, Ef, Ev.
Qed.

(** X4. Two upserts in a row under names that are equal once stripped and
    put in lower case amount to one upsert under the first name: the
    quantities won add up, and of the quantity to keep and of the credit
    value the last one given counts. The quantities given are those of the
    forms (not negative, within 64 bits), and the quantity won of no row
    leaves the 64-bit range when both quantities given are added. This
    holds for blank names too, where all three calls return the frame
    itself. *)
Theorem upsert_jogo_twice (df : DataFrame) (n1 n2 : string)
    (g1 g2 f1 f2 : option Z) (v1 v2 : option float) :
  name_key n1 = name_key n2 ->
  qtd_form (default 0%Z g1) -> qtd_form (default 0%Z g2) ->
  qtd_form (default 0%Z f1) -> qtd_form (default 0%Z f2) ->
  (default 0 g1 + default 0 g2 <= int64_max)%Z ->
  (forall r, r ∈ df ->
             int64 (qtd_ganha r)
             /\ (qtd_ganha r + default 0 g1 + default 0 g2 <= int64_max)%Z) ->
  exists df1 df2,
    upsert_jogo df (Some n1) g1 f1 v1 = Some df1
    /\ upsert_jogo df1 (Some n2) g2 f2 v2 = Some df2
    /\ upsert_jogo df (Some n1) (soma_opt g1 g2) (ultimo f1 f2) (ultimo v1 v2)
       = Some df2.
Proof.
  intros Hk Hg1 Hg2 Hf1 Hf2 Hsum Hfit. unfold name_key in Hk.
  destruct (decide (str_strip n1 = "")) as [E1|N1].
  - assert (E2 : str_strip n2 = "").
    { apply str_lower_empty. now rewrite <- Hk, E1. }
    exists df, df. split; [now apply upsert_jogo_blank|].
    split; now apply upsert_jogo_blank.
  - assert (N2 : str_strip n2 <> "").
    { intros E2. apply N1, str_lower_empty. now rewrite Hk, E2. }
    destruct (any (name_mask df (str_strip n1))) eqn:Ea.
    + pose proof (first_index_lookup _ Ea) as Hk1.
      apply name_mask_lookup in Hk1 as (r & Hr & _).
      set (i := first_index (name_mask df (str_strip n1))) in *.
      assert (Hin : r ∈ df) by (eapply list_elem_of_lookup_2; exact Hr).
      destruct (Hfit r Hin) as [Hr64 Hrmax].
      set (df1 := recalc_df (alter (linha_atualizada g1 f1 v1) i df)).
      assert (Hmask : name_mask df1 (str_strip n2) = name_mask df (str_strip n1)).
      { rewrite (name_mask_lower df1 _ (str_strip n1)) by (now symmetry).
        rewrite (name_mask_nomes df1), (name_mask_nomes df). unfold df1.
        now rewrite recalc_df_nomes, alter_atualizada_nomes. }
      assert (Hr1 : df1 !! i = Some (recalc_row (linha_atualizada g1 f1 v1 r))).
      { unfold df1. now rewrite recalc_df_lookup, list_lookup_alter_eq, Hr. }
      exists df1, (recalc_df (alter (linha_atualizada g2 f2 v2) i df1)).
      split; [|split].
      * apply (upsert_jogo_existing df n1 g1 f1 v1 r); try assumption.
        unfold cabe, qtd_form, int64, int64_min, int64_max in *.
        destruct g1, g2, f1; simpl in *; repeat split; try exact I; lia.
      * rewrite (upsert_jogo_existing df1 n2 g2 f2 v2
                   (recalc_row (linha_atualizada g1 f1 v1 r)));
          rewrite ?Hmask; try assumption; [reflexivity|].
        rewrite recalc_row_fields.
        unfold cabe, qtd_form, int64, int64_min, int64_max in *.
        destruct g1, g2, f2; simpl in *; repeat split; try exact I; lia.
      * rewrite (upsert_jogo_existing df n1 _ _ _ r); try assumption.
        -- fold i. f_equal. apply list_eq. intros j.
           unfold df1. rewrite !recalc_df_lookup.
           destruct (decide (i = j)) as [<-|Nj].
           ++ rewrite !list_lookup_alter_eq, recalc_df_lookup, list_lookup_alter_eq.
              rewrite Hr. simpl. f_equal. symmetry.
              apply recalc_linha_atualizada_twice.
           ++ rewrite !list_lookup_alter_ne by exact Nj.
              rewrite recalc_df_lookup, list_lookup_alter_ne by exact Nj.
              destruct (df !! j) as [r0|]; [|reflexivity]. simpl. f_equal.
              symmetry. apply recalc_row_idem.
        -- unfold cabe, qtd_form, int64, int64_min, int64_max in *.
           destruct g1, g2, f1, f2; simpl in *; repeat split; try exact I; lia.
    + set (nova := nova_linha (str_strip n1) g1 f1 v1).
      set (df1 := recalc_df (df ++ [nova])).
      assert (Hmask : name_mask df1 (str_strip n2)
                      = name_mask df (str_strip n1) ++ [true]).
      { rewrite (name_mask_lower df1 _ (str_strip n1)) by (now symmetry).
        rewrite (name_mask_nomes df1), (name_mask_nomes df). unfold df1.
        rewrite recalc_df_nomes, !fmap_app. simpl.
        now rewrite String.eqb_refl. }
      assert (Hlen : List.length (name_mask df (str_strip n1)) = List.length df).
      { unfold name_mask. apply length_fmap. }
      assert (Hr1 : df1 !! List.length df = Some (recalc_row nova)).
      { unfold df1. rewrite recalc_df_app, lookup_app_r;
          rewrite recalc_df_length; [|lia].
        now rewrite Nat.sub_diag. }
      exists df1, (recalc_df (alter (linha_atualizada g2 f2 v2) (List.length df) df1)).
      split; [|split].
      * now apply upsert_jogo_new.
      * rewrite (upsert_jogo_existing df1 n2 g2 f2 v2 (recalc_row nova));
          rewrite ?Hmask, ?first_index_app_true, ?Hlen; try assumption;
          [reflexivity | apply any_app_true|].
        rewrite recalc_row_fields. unfold nova, nova_linha.
        unfold cabe, qtd_form, int64, int64_min, int64_max in *.
        destruct g1, g2, f2; simpl in *; repeat split; try exact I; lia.
      * rewrite upsert_jogo_new by assumption. f_equal.
        unfold df1. rewrite !recalc_df_app.
        rewrite <- (recalc_df_length df) at 1.
        rewrite <- (Nat.add_0_r (List.length (recalc_df df))).
        rewrite alter_app_r. simpl.
        rewrite recalc_df_app. f_equal.
        -- symmetry. apply recalc_df_fixed.
        -- unfold recalc_df. simpl. f_equal. symmetry.
           apply (recalc_nova_linha_twice (str_strip n1)).
Qed.

(** ** Reports *)

Lemma filter_keeps {A : Type} (P : A -> Prop) `{!forall x, Decision (P x)}
    (l : list A) :
  keeps P l (filter P l).
Proof.
  induction l as [|x l IH]; [constructor|].
  rewrite filter_cons. destruct (decide (P x)); now constructor.
Qed.

Lemma float_column_total (l : list Jogo) :
  float_column "total_credito" (mkReport cols_ordem (linha_credito <$> l))
  = (fun r => F64.mul (F64.of_Z (qtd_credito r)) (valor_credito r)) <$> l.
Proof.
  unfold float_column.
  change (list_find (String.eqb "total_credito") (columns _))
    with (Some (5%nat, "total_credito")).
  cbv beta iota. unfold rows.
  induction l as [|r l IH]; [reflexivity|].
  rewrite !fmap_cons. cbn [omap list_omap]. rewrite <- IH. reflexivity.
Qed.


(** ** [carregar_df] *)

Lemma mapM_length {A B : Type} (h : A -> option B) (l : list A) (k : list B) :
  mapM h l = Some k -> List.length k = List.length l.
Proof. intros H. apply mapM_Some in H. symmetry. exact (Forall2_length _ _ _ H). Qed.

Lemma mapM_lookup {A B : Type} (h : A -> option B) (l : list A) (k : list B)
    (i : nat) (y : B) :
  mapM h l = Some k -> k !! i = Some y ->
  exists x, l !! i = Some x /\ h x = Some y.
Proof.
  intros H Hy. apply mapM_Some in H.
  destruct (Forall2_lookup_r _ _ _ _ _ H Hy) as (x & Hx & Hxy). eauto.
Qed.

Lemma mapM_head_None {A B : Type} (h : A -> option B) (x : A) (l : list A) :
  h x = None -> mapM h (x :: l) = None.
Proof. intros H. simpl. now rewrite H. Qed.

Lemma ensure_column_nrows (df : RawFrame) (c : string) :
  nrows (ensure_column df c) = nrows df.
Proof. unfold ensure_column. now destruct (cols df !! c). Qed.

Lemma ensure_column_lookup (df : RawFrame) (c c' : string) :
  cols (ensure_column df c) !! c'
  = if decide (c = c') then Some (coluna df c) else cols df !! c'.
Proof.
  unfold ensure_column, coluna.
  destruct (cols df !! c) as [s|] eqn:E; simpl.
  - destruct (decide (c = c')) as [<-|]; [exact E | reflexivity].
  - destruct (decide (c = c')) as [<-|Hne].
    + now rewrite lookup_insert_eq.
    + now rewrite lookup_insert_ne.
Qed.

Lemma ensure_columns_nrows (cs : list string) (df : RawFrame) :
  nrows (foldl ensure_column df cs) = nrows df.
Proof.
  revert df. induction cs as [|c cs IH]; intros df; simpl; [reflexivity|].
  now rewrite IH, ensure_column_nrows.
Qed.

Lemma ensure_column_coluna (df : RawFrame) (c c' : string) :
  coluna (ensure_column df c) c' = coluna df c'.
Proof.
  unfold coluna at 1. rewrite ensure_column_lookup, ensure_column_nrows.
  destruct (decide (c = c')) as [<-|]; reflexivity.
Qed.

Lemma ensure_columns_lookup (cs : list string) (df : RawFrame) (c' : string) :
  c' ∈ cs -> cols (foldl ensure_column df cs) !! c' = Some (coluna df c').
Proof.
  revert df. induction cs as [|c cs IH]; intros df Hin.
  - now apply not_elem_of_nil in Hin.
  - simpl. destruct (decide (c' ∈ cs)) as [Hcs|Hcs].
    + rewrite IH by exact Hcs. now rewrite ensure_column_coluna.
    + apply elem_of_cons in Hin as [->|Hin]; [|contradiction].
      assert (G : forall ds d, c ∉ ds ->
                    cols (foldl ensure_column d ds) !! c = cols d !! c).
      { induction ds as [|x ds IHds]; intros d Hx; simpl; [reflexivity|].
        rewrite IHds by (intros ?; apply Hx; now right).
        rewrite ensure_column_lookup.
        destruct (decide (x = c)) as [->|]; [|reflexivity].
        destruct Hx. now left. }
      rewrite G by exact Hcs. rewrite ensure_column_lookup.
      now rewrite decide_True.
Qed.

Lemma build_rows_lookup (n : list string) (g f c : list Z) (v : list float)
    (i : nat) (r : Jogo) :
  build_rows n g f c v !! i = Some r <->
  n !! i = Some (nome r) /\ g !! i = Some (qtd_ganha r)
  /\ f !! i = Some (qtd_ficar r) /\ c !! i = Some (qtd_credito r)
  /\ v !! i = Some (valor_credito r).
Proof.
  revert g f c v i.
  induction n as [|n0 n IH]; intros [|g0 g] [|f0 f] [|c0 c] [|v0 v] i; simpl;
    try (split; [discriminate | intros (?&?&?&?&?); discriminate]).
  destruct i as [|i]; simpl.
  - destruct r as [rn rg rf rc rv]. simpl. split.
    + intros [= -> -> -> -> ->]. auto.
    + intros ([= ->] & [= ->] & [= ->] & [= ->] & [= ->]). reflexivity.
  - apply IH.
Qed.

Lemma build_rows_Some (n : list string) (g f c : list Z) (v : list float)
    (i : nat) (n0 : string) (g0 f0 c0 : Z) (v0 : float) :
  n !! i = Some n0 -> g !! i = Some g0 -> f !! i = Some f0 ->
  c !! i = Some c0 -> v !! i = Some v0 ->
  build_rows n g f c v !! i = Some (mkJogo n0 g0 f0 c0 v0).
Proof.
  intros Hn Hg Hf Hc Hv. apply build_rows_lookup. simpl. now repeat split.
Qed.

Lemma build_rows_length (n : list string) (g f c : list Z) (v : list float)
    (k : nat) :
  List.length n = k -> List.length g = k -> List.length f = k ->
  List.length c = k -> List.length v = k ->
  List.length (build_rows n g f c v) = k.
Proof.
  revert g f c v k.
  induction n as [|n0 n IH]; intros [|g0 g] [|f0 f] [|c0 c] [|v0 v] k; simpl;
    intros; try lia.
  destruct k as [|k]; [lia|]. f_equal. apply IH; lia.
Qed.

Lemma build_rows_fields (w : DataFrame) :
  build_rows (nome <$> w) (qtd_ganha <$> w) (qtd_ficar <$> w)
    (qtd_credito <$> w) (valor_credito <$> w) = w.
Proof.
  induction w as [|[n g f c v] w IH]; [reflexivity|].
  simpl. f_equal. exact IH.
Qed.

Lemma infer_series_length (fields : list string) :
  series_length (infer_series fields) = List.length fields.
Proof.
  unfold infer_series.
  destruct (fora_int64 (classify <$> fields)); [destruct (csv_grande fields)|];
    repeat match goal with
           | |- context [mapM ?h ?l] =>
               let E := fresh "E" in
               destruct (mapM h l) eqn:E;
               [apply mapM_length in E; simpl; rewrite E; apply length_fmap|]
           end;
    simpl; apply length_fmap.
Qed.

Lemma read_csv_shape (csv : Csv) (raw : RawFrame) :
  read_csv csv = Some raw ->
  nrows raw = List.length (lines csv)
  /\ forall c s, cols raw !! c = Some s -> series_length s = nrows raw.
Proof.
  unfold read_csv.
  destruct (bool_decide _); [discriminate|].
  destruct (existsb _ _); [discriminate|].
  intros [= <-]. simpl. split; [reflexivity|].
  intros c s Hs. apply elem_of_list_to_map_2 in Hs.
  apply elem_of_lookup_imap in Hs as (j & h & [= -> ->] & _).
  rewrite infer_series_length. apply length_fmap.
Qed.

Lemma coluna_length (csv : Csv) (raw : RawFrame) (c : string) :
  read_csv csv = Some raw -> series_length (coluna raw c) = nrows raw.
Proof.
  intros H. apply read_csv_shape in H as [_ H]. unfold coluna.
  destruct (cols raw !! c) as [s|] eqn:E; simpl.
  - now apply (H c).
  - apply length_replicate.
Qed.

(** [pd.to_numeric] on a column of mixed content gives integers only when
    every cell reads as an integer, and floats otherwise. *)
Lemma to_numeric_obj (k : list obj) :
  (exists zs, mapM num_int (obj_num <$> k) = Some zs
              /\ to_numeric (ObjCol k) = NumInt zs)
  \/ to_numeric (ObjCol k) = NumFloat (num_float <$> (obj_num <$> k)).
Proof.
  simpl. destruct (mapM num_int (obj_num <$> k)) as [zs|]; [|now right].
  destruct (forallb int64b zs || num_uint64 zs); [left; eauto | now right].
Qed.

Lemma coerce_qtd_length (s : Series) (l : list Z) :
  coerce_qtd s = Some l -> List.length l = series_length s.
Proof.
  unfold coerce_qtd. destruct s as [k|k|k|k]; [simpl|simpl|simpl|].
  - intros [= <-]. apply length_fmap.
  - intros H. apply mapM_length in H. now rewrite H, length_fmap.
  - intros [= <-]. apply length_fmap.
  - destruct (to_numeric_obj k) as [(zs & E & ->) | ->]; simpl.
    + intros [= <-]. apply mapM_length in E. now rewrite length_fmap, E, length_fmap.
    + intros H. apply mapM_length in H. now rewrite H, !length_fmap.
Qed.

Lemma coerce_valor_length (s : Series) :
  List.length (coerce_valor s) = series_length s.
Proof.
  unfold coerce_valor. destruct s as [k|k|k|k];
    [simpl; now rewrite ?length_fmap ..|].
  destruct (to_numeric_obj k) as [(zs & E & ->) | ->]; simpl.
  - apply mapM_length in E. now rewrite length_fmap, E, length_fmap.
  - now rewrite !length_fmap.
Qed.

Lemma astype_str_length (s : Series) :
  List.length (astype_str s) = series_length s.
Proof. destruct s; simpl; apply length_fmap. Qed.

(** What [to_int64] gives lies within 64 bits. *)
Lemma to_int64_int64 (x : float) (q : Z) : to_int64 x = Some q -> int64 q.
Proof.
  unfold to_int64. destruct (F64.trunc x) as [z|]; [|discriminate]. simpl.
  intros [= <-]. destruct (int64b z) eqn:E.
  - now apply int64b_spec.
  - apply int64_wrap64.
Qed.

Lemma to_int64_de_float (x : float) (q : Z) :
  to_int64 x = Some q <-> int_de_float x q.
Proof.
  unfold to_int64, int_de_float. destruct (F64.trunc x) as [z|]; simpl.
  - split.
    + intros [= <-]. now exists z.
    + intros (z' & [= <-] & ->). reflexivity.
  - split; [discriminate | intros (z' & H & _); discriminate].
Qed.

Lemma to_int64_fillna (x : float) (q : Z) :
  to_int64 (fillna F64.zero x) = Some q <-> qtd_de_float x q.
Proof.
  unfold qtd_de_float, fillna. destruct (F64.isnan x).
  - split; [now intros [= <-] | now intros ->].
  - apply to_int64_de_float.
Qed.

Lemma to_int64_b2z (b : bool) :
  to_int64 (fillna F64.zero (F64.of_Z (Z.b2z b))) = Some (Z.b2z b).
Proof. destruct b; reflexivity. Qed.

Lemma wrap64_b2z (b : bool) : wrap64 (Z.b2z b) = Z.b2z b.
Proof. now destruct b. Qed.

(** The cells of a quantity column that was coerced lie within 64 bits. *)
Lemma coerce_qtd_int64 (s : Series) (l : list Z) :
  coerce_qtd s = Some l -> Forall int64 l.
Proof.
  assert (Hm : forall k, mapM to_int64 k = Some l -> Forall int64 l).
  { intros k H. apply Forall_lookup. intros i q Hq.
    destruct (mapM_lookup _ _ _ _ _ H Hq) as (x & _ & Hx).
    now apply to_int64_int64 in Hx. }
  assert (Hw : forall k, Forall int64 (wrap64 <$> k)).
  { intros k. apply Forall_fmap, Forall_forall. intros z _. apply int64_wrap64. }
  unfold coerce_qtd. destruct s as [k|k|k|k]; [simpl|simpl|simpl|].
  - intros [= <-]. apply Hw.
  - apply Hm.
  - intros [= <-]. apply Forall_fmap, Forall_forall. intros b _.
    unfold int64, int64_min, int64_max. destruct b; simpl; lia.
  - destruct (to_numeric_obj k) as [(zs & _ & ->) | ->]; simpl.
    + intros [= <-]. apply Hw.
    + apply Hm.
Qed.

Lemma coerce_qtd_cell (raw : RawFrame) (c : string) (l : list Z) (i : nat) (q : Z) :
  coerce_qtd (coluna raw c) = Some l -> l !! i = Some q ->
  qtd_lida (cols raw !! c) i q.
Proof.
  unfold coluna, coerce_qtd, qtd_lida.
  destruct (cols raw !! c) as [[k|k|k|k]|]; [simpl|simpl|simpl| |simpl].
  - intros [= <-]. rewrite list_lookup_fmap.
    destruct (k !! i) as [z|]; [|discriminate]. simpl.
    intros [= <-]. now exists z.
  - intros H Hq. destruct (mapM_lookup _ _ _ _ _ H Hq) as (x & Hx & Ht).
    rewrite list_lookup_fmap in Hx.
    destruct (k !! i) as [x0|]; [|discriminate]. simpl in Hx.
    injection Hx as <-. exists x0. split; [reflexivity|].
    now apply to_int64_fillna.
  - intros [= <-]. rewrite list_lookup_fmap.
    destruct (k !! i) as [b|]; [|discriminate]. simpl.
    intros [= <-]. now exists b.
  - change (default _ (Some (ObjCol k))) with (ObjCol k).
    destruct (to_numeric_obj k) as [(zs & E & ->) | ->]; simpl.
    + intros [= <-] Hq. rewrite list_lookup_fmap in Hq.
      destruct (zs !! i) as [z|] eqn:Hz; [|discriminate]. simpl in Hq.
      injection Hq as <-.
      destruct (mapM_lookup _ _ _ _ _ E Hz) as (n & Hn & Hint).
      rewrite list_lookup_fmap in Hn.
      destruct (k !! i) as [o|]; [|discriminate]. simpl in Hn.
      injection Hn as <-. exists o. split; [reflexivity|].
      destruct o as [t| |b]; simpl in Hint.
      * destruct (to_numeric_str t) as [[z'|x]|]; simpl in Hint;
          try discriminate. injection Hint as ->. now left.
      * discriminate.
      * injection Hint as <-. apply wrap64_b2z.
    + intros H Hq. destruct (mapM_lookup _ _ _ _ _ H Hq) as (x & Hx & Ht).
      rewrite !list_lookup_fmap in Hx.
      destruct (k !! i) as [o|]; [|discriminate]. simpl in Hx.
      injection Hx as <-. exists o. split; [reflexivity|].
      destruct o as [t| |b]; simpl in Ht.
      * destruct (to_numeric_str t) as [[z|x]|]; simpl in Ht.
        -- right. now apply to_int64_fillna.
        -- now apply to_int64_fillna.
        -- now injection Ht as <-.
      * now injection Ht as <-.
      * rewrite to_int64_b2z in Ht. now injection Ht as <-.
  - intros [= <-] Hq. rewrite list_lookup_fmap in Hq.
    destruct (replicate (nrows raw) 0%Z !! i) as [z|] eqn:Hz; [|discriminate].
    apply lookup_replicate in Hz as [-> _]. simpl in Hq. now injection Hq as <-.
Qed.

Lemma valor_recalc_fillna (x : float) :
  valor_recalc (fillna DEFAULT_CREDITO x) = valor_recalc x.
Proof. destruct x as [s|s| |s m e]; try destruct s; reflexivity. Qed.

Lemma coerce_valor_cell (raw : RawFrame) (c : string) (i : nat) (x : float) :
  coerce_valor (coluna raw c) !! i = Some x ->
  valor_lido (cols raw !! c) i (valor_recalc x).
Proof.
  unfold coluna, coerce_valor, valor_lido.
  destruct (cols raw !! c) as [[k|k|k|k]|]; [simpl|simpl|simpl| |simpl].
  - rewrite list_lookup_fmap. destruct (k !! i) as [z|]; [|discriminate].
    simpl. intros [= <-]. now exists z.
  - rewrite list_lookup_fmap. destruct (k !! i) as [y|]; [|discriminate].
    simpl. intros [= <-]. exists y. now rewrite valor_recalc_fillna.
  - rewrite list_lookup_fmap. destruct (k !! i) as [b|]; [|discriminate].
    simpl. intros [= <-]. now exists b.
  - change (default _ (Some (ObjCol k))) with (ObjCol k).
    destruct (to_numeric_obj k) as [(zs & E & ->) | ->]; simpl.
    + rewrite list_lookup_fmap. intros Hx.
      destruct (zs !! i) as [z|] eqn:Hz; [|discriminate]. simpl in Hx.
      injection Hx as <-.
      destruct (mapM_lookup _ _ _ _ _ E Hz) as (n & Hn & Hint).
      rewrite list_lookup_fmap in Hn.
      destruct (k !! i) as [o|]; [|discriminate]. simpl in Hn.
      injection Hn as <-. exists o. split; [reflexivity|].
      destruct o as [t| |b]; simpl in Hint.
      * destruct (to_numeric_str t) as [[z'|x']|]; simpl in Hint;
          try discriminate. now injection Hint as ->.
      * discriminate.
      * now injection Hint as <-.
    + rewrite !list_lookup_fmap.
      destruct (k !! i) as [o|]; [|discriminate]. simpl.
      intros [= <-]. exists o. split; [reflexivity|].
      rewrite valor_recalc_fillna.
      destruct o as [t| |b]; simpl; [|reflexivity|reflexivity].
      destruct (to_numeric_str t) as [n|]; reflexivity.
  - intros Hx. rewrite list_lookup_fmap in Hx.
    destruct (replicate (nrows raw) 0%Z !! i) as [z|] eqn:Hz; [|discriminate].
    apply lookup_replicate in Hz as [-> _]. simpl in Hx.
    now injection Hx as <-.
Qed.

Lemma astype_str_cell (raw : RawFrame) (c : string) (i : nat) (t : string) :
  astype_str (coluna raw c) !! i = Some t ->
  nome_lido (cols raw !! c) i (str_strip t).
Proof.
  unfold coluna, nome_lido.
  destruct (cols raw !! c) as [[k|k|k|k]|]; simpl; rewrite list_lookup_fmap.
  - destruct (k !! i) as [z|]; [|discriminate]. simpl.
    intros [= <-]. now exists z.
  - destruct (k !! i) as [x|]; [|discriminate]. simpl.
    intros [= <-]. exists x. split; [reflexivity|].
    unfold float_str. now intros ->.
  - destruct (k !! i) as [b|]; [|discriminate]. simpl.
    intros [= <-]. now exists b.
  - destruct (k !! i) as [o|]; [|discriminate]. simpl.
    intros [= <-]. exists o. split; [reflexivity|].
    destruct o as [t'| |b]; [reflexivity | exact I | reflexivity].
  - destruct (replicate (nrows raw) 0%Z !! i) as [z|] eqn:Hz; [|discriminate].
    apply lookup_replicate in Hz as [-> _]. simpl. now intros [= <-].
Qed.

Lemma carregar_df_present (csv : Csv) (raw : RawFrame) :
  read_csv csv = Some raw ->
  carregar_df (Some csv)
  = (g ← coerce_qtd (coluna raw "qtd_ganha");
     f ← coerce_qtd (coluna raw "qtd_ficar");
     c ← coerce_qtd (coluna raw "qtd_credito");
     Some (recalc_df
             (build_rows (str_strip <$> astype_str (coluna raw "nome")) g f c
                (coerce_valor (coluna raw "valor_credito"))))).
Proof.
  intros H. unfold carregar_df. rewrite H. simpl.
  rewrite !(ensure_columns_lookup CAMPOS raw)
    by (unfold CAMPOS; rewrite !elem_of_cons; auto 10).
  reflexivity.
Qed.

Lemma to_int64_fillna_finite (x : float) :
  isinf x = false -> is_Some (to_int64 (fillna F64.zero x)).
Proof.
  unfold to_int64. destruct x; simpl; intros H; try discriminate; eauto.
Qed.

Lemma coerce_qtd_returns (raw : RawFrame) (c : string) :
  qtd_finita (cols raw !! c) -> is_Some (coerce_qtd (coluna raw c)).
Proof.
  unfold coluna, coerce_qtd, qtd_finita.
  destruct (cols raw !! c) as [[k|k|k|k]|];
    [simpl; eauto|simpl|simpl; eauto| |simpl; eauto].
  - intros H. apply mapM_is_Some_2, Forall_fmap.
    eapply Forall_impl; [exact H|]. intros x. apply to_int64_fillna_finite.
  - change (default _ (Some (ObjCol k))) with (ObjCol k). intros H.
    destruct (to_numeric_obj k) as [(zs & _ & ->) | ->]; simpl; eauto.
    apply mapM_is_Some_2. rewrite !Forall_fmap.
    eapply Forall_impl; [exact H|]. intros o Ho. simpl.
    destruct o as [t| |b]; simpl.
    + destruct (to_numeric_str t) as [n|]; simpl; eauto.
      now apply to_int64_fillna_finite.
    + eauto.
    + rewrite to_int64_b2z. eauto.
Qed.

(** A table that was loaded is its own recomputation, and its quantities
    won and kept lie within 64 bits. *)
Lemma carregar_df_normal (store : Store) (df : DataFrame) :
  carregar_df store = Some df ->
  recalc_df df = df /\ Forall linha_int64 df.
Proof.
  destruct store as [csv|]; [|intros [= <-]; split; [reflexivity | constructor]].
  destruct (read_csv csv) as [raw|] eqn:Er;
    [|unfold carregar_df; rewrite Er; discriminate].
  rewrite (carregar_df_present _ _ Er).
  destruct (coerce_qtd (coluna raw "qtd_ganha")) as [g|] eqn:Eg; [|discriminate].
  destruct (coerce_qtd (coluna raw "qtd_ficar")) as [f|] eqn:Ef; [|discriminate].
  destruct (coerce_qtd (coluna raw "qtd_credito")) as [c|]; [|discriminate].
  simpl. intros [= <-]. split.
  - apply recalc_df_fixed.
  - apply Forall_lookup. intros i r Hr. rewrite recalc_df_lookup in Hr.
    destruct (build_rows _ g f c _ !! i) as [r0|] eqn:Hr0; [|discriminate].
    simpl in Hr. injection Hr as <-.
    apply build_rows_lookup in Hr0 as (_ & Hg & Hf & _).
    apply coerce_qtd_int64 in Eg, Ef.
    rewrite recalc_row_fields. split; simpl.
    + eapply Forall_lookup_1; [exact Eg | exact Hg].
    + eapply Forall_lookup_1; [exact Ef | exact Hf].
Qed.

(** C5, amended. [carregar_df] returns the empty table when the store is
    absent, and never fails there. When the store is present and the reader
    returns a frame, [carregar_df] returns a table as soon as no quantity
    cell is infinite, and the table it returns has one row per data line,
    is a fixed point of [recalc_df], and holds in row [i]: the trimmed text
    of the name cell when that cell is not missing (the trimmed text of 0
    when the file has no name column); in [qtd_ganha] and [qtd_ficar] an
    integer of 64 bits, which is the stored integer whatever its sign (when
    that fits 64 bits), and 0 for a missing column, a missing cell or a
    text that does not parse; in [qtd_credito] the maximum of 0 and the
    64-bit difference of the two; and in [valor_credito] the stored
    value, or [DEFAULT_CREDITO] for a missing column, a missing cell, a
    text that does not parse, or zero. *)
Theorem carregar_df_coerces :
  carregar_df None = Some []
  /\ (forall csv raw,
        read_csv csv = Some raw ->
        qtd_finita (cols raw !! "qtd_ganha") ->
        qtd_finita (cols raw !! "qtd_ficar") ->
        qtd_finita (cols raw !! "qtd_credito") ->
        is_Some (carregar_df (Some csv)))
  /\ (forall csv raw df,
        read_csv csv = Some raw ->
        carregar_df (Some csv) = Some df ->
        List.length df = List.length (lines csv)
        /\ recalc_df df = df
        /\ forall i r,
             df !! i = Some r ->
             nome_lido (cols raw !! "nome") i (nome r)
             /\ qtd_lida (cols raw !! "qtd_ganha") i (qtd_ganha r)
             /\ qtd_lida (cols raw !! "qtd_ficar") i (qtd_ficar r)
             /\ int64 (qtd_ganha r) /\ int64 (qtd_ficar r)
             /\ qtd_credito r = Z.max 0 (wrap64 (qtd_ganha r - qtd_ficar r))
             /\ (int64 (qtd_ganha r - qtd_ficar r) ->
                 qtd_credito r = Z.max 0 (qtd_ganha r - qtd_ficar r))
             /\ valor_lido (cols raw !! "valor_credito") i (valor_credito r)).
Proof.
  split; [reflexivity|]. split.
  - intros csv raw Hread Hg Hf Hc.
    rewrite (carregar_df_present csv raw Hread).
    destruct (coerce_qtd_returns raw "qtd_ganha" Hg) as [g ->].
    destruct (coerce_qtd_returns raw "qtd_ficar" Hf) as [f ->].
    destruct (coerce_qtd_returns raw "qtd_credito" Hc) as [c ->].
    simpl. eauto.
  - intros csv raw df Hread Hload.
    destruct (carregar_df_normal _ _ Hload) as [Hfix H64].
    rewrite (carregar_df_present csv raw Hread) in Hload.
    destruct (coerce_qtd (coluna raw "qtd_ganha")) as [g|] eqn:Eg; [|discriminate].
    destruct (coerce_qtd (coluna raw "qtd_ficar")) as [f|] eqn:Ef; [|discriminate].
    destruct (coerce_qtd (coluna raw "qtd_credito")) as [c|] eqn:Ec; [|discriminate].
    simpl in Hload. injection Hload as <-.
    pose proof (read_csv_shape csv raw Hread) as [Hn _].
    split; [|split; [exact Hfix|]].
    + rewrite recalc_df_length. apply build_rows_length.
      * now rewrite length_fmap, astype_str_length,
          (coluna_length csv raw _ Hread).
      * now rewrite (coerce_qtd_length _ _ Eg), (coluna_length csv raw _ Hread).
      * now rewrite (coerce_qtd_length _ _ Ef), (coluna_length csv raw _ Hread).
      * now rewrite (coerce_qtd_length _ _ Ec), (coluna_length csv raw _ Hread).
      * now rewrite coerce_valor_length, (coluna_length csv raw _ Hread).
    + intros i r Hr.
      destruct (Forall_lookup_1 _ _ _ _ H64 Hr) as [Hg64 Hf64].
      rewrite recalc_df_lookup in Hr.
      destruct (build_rows _ g f c _ !! i) as [r0|] eqn:Hr0; [|discriminate].
      simpl in Hr. injection Hr as <-.
      apply build_rows_lookup in Hr0 as (Hnm & Hg & Hf & _ & Hv).
      rewrite list_lookup_fmap in Hnm.
      destruct (astype_str (coluna raw "nome") !! i) as [t|] eqn:Ht; [|discriminate].
      simpl in Hnm. injection Hnm as Hnm.
      rewrite recalc_row_fields in *. simpl in *. rewrite <- Hnm.
      split; [now apply astype_str_cell|].
      split; [now apply (coerce_qtd_cell raw _ g)|].
      split; [now apply (coerce_qtd_cell raw _ f)|].
      split; [exact Hg64|]. split; [exact Hf64|].
      split; [reflexivity|]. split; [apply credito_max|].
      now apply coerce_valor_cell.
Qed.

(** X8. When the reader makes of one of the three quantity columns of the
    file a float column with an infinite cell, [carregar_df] raises (the
    conversion to integers refuses the cell), and with it the save button
    and the registration form, which load first. This holds for the column
    [qtd_credito] too, whose values a load that succeeds discards. *)
Theorem carregar_df_infinito (csv : Csv) (raw : RawFrame) (c : string)
    (l : list float) :
  read_csv csv = Some raw ->
  c ∈ ["qtd_ganha"; "qtd_ficar"; "qtd_credito"] ->
  cols raw !! c = Some (FloatCol l) ->
  Exists (fun x => isinf x = true) l ->
  carregar_df (Some csv) = None
  /\ forcar_salvar (Some csv) = None
  /\ forall n g f v, cadastrar (Some csv) n g f v = None.
Proof.
  intros Hr Hc Hcol Hinf.
  assert (Hq : coerce_qtd (coluna raw c) = None).
  { unfold coluna. rewrite Hcol. simpl. unfold coerce_qtd. simpl.
    apply mapM_None. apply Exists_fmap.
    eapply Exists_impl; [exact Hinf|]. intros x Hx.
    destruct x; try discriminate Hx. reflexivity. }
  assert (Hload : carregar_df (Some csv) = None).
  { rewrite (carregar_df_present _ _ Hr).
    apply elem_of_cons in Hc as [->|Hc]; [now rewrite Hq|].
    apply elem_of_cons in Hc as [->|Hc];
      [rewrite Hq; destruct (coerce_qtd (coluna raw "qtd_ganha")); reflexivity|].
    apply elem_of_cons in Hc as [->|Hc];
      [|now apply not_elem_of_nil in Hc].
    rewrite Hq.
    destruct (coerce_qtd (coluna raw "qtd_ganha")); [|reflexivity].
    destruct (coerce_qtd (coluna raw "qtd_ficar")); reflexivity. }
  split; [exact Hload|]. split.
  - unfold forcar_salvar. now rewrite Hload.
  - intros n g f v. unfold cadastrar. now rewrite Hload.
Qed.

(** ** The text of integers *)

Lemma string_of_uint_digits (d : Decimal.uint) :
  Forall (fun c => isdigit c = true)
    (list_ascii_of_string (NilEmpty.string_of_uint d)).
Proof. induction d; simpl; constructor; auto. Qed.

Lemma digits_uint (d : Decimal.uint) :
  d <> Decimal.Nil ->
  digits (list_ascii_of_string (NilEmpty.string_of_uint d)) = Some (Z.of_uint d).
Proof.
  intros Hd. unfold digits. rewrite string_of_list_ascii_of_string.
  replace (NilEmpty.string_of_uint d) with (NilZero.string_of_uint d)
    by now destruct d.
  now rewrite NilZero.usu.
Qed.

Lemma int_literal_digits (l : list ascii) :
  l <> [] -> Forall (fun c => isdigit c = true) l ->
  int_literal (string_of_list_ascii l) = digits l.
Proof.
  intros Hne Hd. unfold int_literal.
  rewrite list_ascii_of_string_of_list_ascii.
  rewrite strip_by_fixed.
  - destruct l as [|c l]; [contradiction|].
    inversion Hd as [|? ? Hc _].
    destruct c as [[] [] [] [] [] [] [] []]; try discriminate Hc; reflexivity.
  - eapply Forall_impl; [exact Hd|]. intros c Hc.
    destruct c as [[] [] [] [] [] [] [] []]; try discriminate Hc; reflexivity.
Qed.

Lemma int_literal_minus (l : list ascii) :
  l <> [] -> Forall (fun c => isdigit c = true) l ->
  int_literal (String "-" (string_of_list_ascii l)) = Z.opp <$> digits l.
Proof.
  intros Hne Hd. unfold int_literal.
  change (list_ascii_of_string (String "-" (string_of_list_ascii l)))
    with ("-"%char :: list_ascii_of_string (string_of_list_ascii l)).
  rewrite list_ascii_of_string_of_list_ascii.
  rewrite strip_by_fixed; [reflexivity|].
  constructor; [reflexivity|].
  eapply Forall_impl; [exact Hd|]. intros c Hc.
  destruct c as [[] [] [] [] [] [] [] []]; try discriminate Hc; reflexivity.
Qed.

Lemma int_literal_pos (p : positive) :
  int_literal (NilEmpty.string_of_uint (Pos.to_uint p)) = Some (Zpos p).
Proof.
  pose proof (Unsigned.to_uint_nonnil p) as Hn.
  rewrite <- (string_of_list_ascii_of_string (NilEmpty.string_of_uint _)).
  rewrite int_literal_digits.
  - rewrite digits_uint by exact Hn. f_equal.
    unfold Z.of_uint. now rewrite Unsigned.of_to.
  - destruct (Pos.to_uint p); try contradiction; discriminate.
  - apply string_of_uint_digits.
Qed.

(** The reader takes the text of an integer for that integer. *)
Lemma int_literal_repr (z : Z) : int_literal (int_repr z) = Some z.
Proof.
  unfold int_repr. destruct z as [|p|p]; simpl.
  - reflexivity.
  - replace (NilZero.string_of_uint (Pos.to_uint p))
      with (NilEmpty.string_of_uint (Pos.to_uint p)).
    + apply int_literal_pos.
    + pose proof (Unsigned.to_uint_nonnil p). now destruct (Pos.to_uint p).
  - pose proof (Unsigned.to_uint_nonnil p) as Hn.
    replace (NilZero.string_of_uint (Pos.to_uint p))
      with (NilEmpty.string_of_uint (Pos.to_uint p))
      by now destruct (Pos.to_uint p).
    rewrite <- (string_of_list_ascii_of_string (NilEmpty.string_of_uint _)).
    rewrite int_literal_minus.
    + rewrite digits_uint by exact Hn. simpl. f_equal.
      unfold Z.of_uint. now rewrite Unsigned.of_to.
    + destruct (Pos.to_uint p); try contradiction; discriminate.
    + apply string_of_uint_digits.
Qed.

Lemma is_na_int_repr (z : Z) : is_na (int_repr z) = false.
Proof.
  unfold is_na. apply bool_decide_eq_false. intros H.
  pose proof (int_literal_repr z) as Hz.
  unfold NA_VALUES in H.
  repeat (apply elem_of_cons in H as [H|H];
          [rewrite H in Hz; discriminate Hz|]).
  now apply not_elem_of_nil in H.
Qed.

(** ** Saving, then loading *)

Lemma read_csv_to_csv (df : DataFrame) :
  read_csv (to_csv df) = Some (frame_escrito df).
Proof.
  unfold read_csv, to_csv, frame_escrito. simpl.
  assert (L : largura
                {| header := CAMPOS;
                   lines := (fun r => [nome r; int_repr (qtd_ganha r);
                                       int_repr (qtd_ficar r);
                                       int_repr (qtd_credito r);
                                       float_field (valor_credito r)]) <$> df |}
              = 5%nat).
  { unfold largura. simpl. now destruct df. }
  rewrite L. clear L.
  assert (E : existsb (fun line => (5 <? List.length line)%nat)
                ((fun r => [nome r; int_repr (qtd_ganha r); int_repr (qtd_ficar r);
                            int_repr (qtd_credito r);
                            float_field (valor_credito r)]) <$> df)
              = false).
  { induction df as [|r df IH]; [reflexivity | exact IH]. }
  rewrite E. simpl. rewrite length_fmap.
  rewrite <- !list_fmap_compose. reflexivity.
Qed.

Lemma frame_escrito_colunas (df : DataFrame) :
  coluna (frame_escrito df) "nome" = infer_series (nome <$> df)
  /\ coluna (frame_escrito df) "qtd_ganha"
     = infer_series ((fun r => int_repr (qtd_ganha r)) <$> df)
  /\ coluna (frame_escrito df) "qtd_ficar"
     = infer_series ((fun r => int_repr (qtd_ficar r)) <$> df)
  /\ coluna (frame_escrito df) "qtd_credito"
     = infer_series ((fun r => int_repr (qtd_credito r)) <$> df)
  /\ coluna (frame_escrito df) "valor_credito"
     = infer_series ((fun r => float_field (valor_credito r)) <$> df).
Proof.
  unfold coluna, frame_escrito. cbn [cols nrows list_to_map foldr fst snd].
  repeat split;
    repeat (first [ rewrite lookup_insert_eq; reflexivity
                  | rewrite lookup_insert_ne by discriminate ]).
Qed.

(** What [carregar_df] returns right after [salvar_df]. *)
Lemma carregar_df_salvar_df (df : DataFrame) (store : Store) :
  carregar_df (salvar_df df store)
  = (let w := recalc_df df in
     g ← coerce_qtd (infer_series ((fun r => int_repr (qtd_ganha r)) <$> w));
     f ← coerce_qtd (infer_series ((fun r => int_repr (qtd_ficar r)) <$> w));
     c ← coerce_qtd (infer_series ((fun r => int_repr (qtd_credito r)) <$> w));
     Some (recalc_df
             (build_rows
                (str_strip <$> astype_str (infer_series (nome <$> w)))
                g f c
                (coerce_valor
                   (infer_series
                      ((fun r => float_field (valor_credito r)) <$> w)))))).
Proof.
  unfold salvar_df.
  rewrite (carregar_df_present _ _ (read_csv_to_csv (recalc_df df))).
  destruct (frame_escrito_colunas (recalc_df df)) as (-> & -> & -> & -> & ->).
  reflexivity.
Qed.

(** [salvar_df] recomputes the table it is given and replaces the whole
    store by it, whatever the store held. *)
Lemma salvar_df_overwrites (df : DataFrame) (store : Store) :
  salvar_df df store = Some (to_csv (recalc_df df))
  /\ salvar_df df store = salvar_df df None
  /\ salvar_df (recalc_df df) store = salvar_df df store.
Proof.
  unfold salvar_df. split; [reflexivity|]. split; [reflexivity|].
  now rewrite recalc_df_fixed.
Qed.

(** A column in which no integer lies outside the 64-bit range is inferred
    by the rules written out. *)
Lemma fora_int64_false (ts : list token) :
  Forall (fun t => token_grande t = false) ts -> fora_int64 ts = false.
Proof.
  intros H. unfold fora_int64. apply andb_false_iff. right.
  induction H as [|t ts Ht _ IH]; [reflexivity|]. simpl. now rewrite Ht.
Qed.

Lemma classify_int_repr (z : Z) : classify (int_repr z) = TNum (NInt z).
Proof.
  unfold classify, csv_number. now rewrite is_na_int_repr, int_literal_repr.
Qed.

(** The reader makes a column of 64-bit integers of their texts. *)
Lemma infer_series_ints (l : list Z) :
  Forall int64 l -> infer_series (int_repr <$> l) = IntCol l.
Proof.
  intros H. unfold infer_series. rewrite <- list_fmap_compose.
  rewrite fora_int64_false.
  - rewrite (mapM_fmap_Some token_int (classify ∘ int_repr)); [reflexivity|].
    intros z. simpl. now rewrite classify_int_repr.
  - apply Forall_fmap. eapply Forall_impl; [exact H|]. intros z Hz. simpl.
    rewrite classify_int_repr. simpl.
    now rewrite (proj2 (int64b_spec z) Hz).
Qed.

Lemma wrap64_fmap (l : list Z) : Forall int64 l -> wrap64 <$> l = l.
Proof.
  intros H. etrans; [|apply list_fmap_id].
  apply list_fmap_ext. intros i z Hz. apply wrap64_int64.
  eapply Forall_lookup_1; [exact H | exact Hz].
Qed.

Lemma coerce_qtd_ints (l : list Z) :
  Forall int64 l -> coerce_qtd (infer_series (int_repr <$> l)) = Some l.
Proof.
  intros H. rewrite infer_series_ints by exact H.
  unfold coerce_qtd. simpl. now rewrite wrap64_fmap.
Qed.

Lemma coerce_valor_floats (l : list float) :
  Forall (fun x => classify (float_field x) = TNum (NFloat x)) l ->
  coerce_valor (infer_series (float_field <$> l)) = fillna DEFAULT_CREDITO <$> l.
Proof.
  intros H. destruct l as [|x l]; [reflexivity|].
  unfold infer_series.
  set (ts := classify <$> (float_field <$> x :: l)).
  assert (E1 : mapM token_int ts = None).
  { unfold ts. rewrite !fmap_cons. apply mapM_head_None.
    inversion H as [|? ? Hx _]. now rewrite Hx. }
  assert (E2 : mapM token_float ts = Some (x :: l)).
  { apply mapM_Some. unfold ts. rewrite <- list_fmap_compose.
    apply Forall2_fmap_l, Forall_Forall2_diag.
    eapply Forall_impl; [exact H|]. intros y Hy. simpl. now rewrite Hy. }
  assert (E0 : fora_int64 ts = false).
  { apply fora_int64_false. unfold ts. rewrite <- list_fmap_compose.
    apply Forall_fmap. eapply Forall_impl; [exact H|]. intros y Hy. simpl.
    now rewrite Hy. }
  now rewrite E0, E1, E2.
Qed.

Lemma astype_str_texts (l : list string) :
  Forall (fun n => classify n = TText n) l ->
  astype_str (infer_series l) = l.
Proof.
  intros H. destruct l as [|n l]; [reflexivity|].
  unfold infer_series.
  set (ts := classify <$> n :: l).
  assert (E0 : fora_int64 ts = false).
  { apply fora_int64_false. unfold ts. apply Forall_fmap.
    eapply Forall_impl; [exact H|]. intros y Hy. simpl. now rewrite Hy. }
  rewrite E0.
  assert (Hts : exists t, ts = TText n :: t).
  { unfold ts. rewrite fmap_cons. inversion H as [|? ? Hn _].
    rewrite Hn. eauto. }
  destruct Hts as [t ->].
  rewrite !mapM_head_None by reflexivity.
  cbn [astype_str]. rewrite <- list_fmap_compose.
  etrans; [|apply list_fmap_id].
  apply list_fmap_ext. intros j m Hm.
  eapply Forall_lookup_1 in H; [|exact Hm]. simpl in H.
  unfold compose, text_obj. unfold classify in H.
  destruct (is_na m); [discriminate H | reflexivity].
Qed.

(** The quantity columns of the recomputation of a table whose quantities
    lie within 64 bits. *)
Lemma recalc_df_colunas_int64 (df : DataFrame) :
  Forall linha_int64 df ->
  Forall int64 (qtd_ganha <$> recalc_df df)
  /\ Forall int64 (qtd_ficar <$> recalc_df df)
  /\ Forall int64 (qtd_credito <$> recalc_df df).
Proof.
  intros H. unfold recalc_df. rewrite <- !list_fmap_compose.
  repeat split; apply Forall_fmap; (eapply Forall_impl; [exact H|]);
    intros r [Hg Hf]; simpl; try assumption.
  unfold clip_lower0. rewrite Z.max_comm. apply credito_int64.
Qed.

(** The rows of a table that is saved and then loaded. *)
Lemma carregar_salvar_linhas (df : DataFrame) (store : Store) :
  Forall linha_int64 df ->
  exists df',
    carregar_df (salvar_df df store) = Some df'
    /\ List.length df' = List.length df
    /\ forall i r, df !! i = Some r ->
         exists t x,
           astype_str (infer_series (nome <$> df)) !! i = Some t
           /\ df' !! i
              = Some (mkJogo (str_strip t) (qtd_ganha r) (qtd_ficar r)
                        (credito (qtd_ganha r) (qtd_ficar r)) (valor_recalc x)).
Proof.
  intros H64. rewrite carregar_df_salvar_df. cbv zeta.
  destruct (recalc_df_colunas_int64 df H64) as (Hg & Hf & Hc).
  set (w := recalc_df df) in *.
  rewrite (list_fmap_compose qtd_ganha int_repr w : (fun r => _) <$> w = _).
  rewrite (list_fmap_compose qtd_ficar int_repr w : (fun r => _) <$> w = _).
  rewrite (list_fmap_compose qtd_credito int_repr w : (fun r => _) <$> w = _).
  rewrite !coerce_qtd_ints by assumption. simpl.
  assert (Hw : nome <$> w = nome <$> df) by apply recalc_df_nomes.
  rewrite Hw.
  set (ns := astype_str (infer_series (nome <$> df))).
  set (vs := coerce_valor _).
  assert (Lw : List.length w = List.length df) by apply recalc_df_length.
  assert (Lns : List.length ns = List.length df).
  { unfold ns. now rewrite astype_str_length, infer_series_length, length_fmap. }
  assert (Lvs : List.length vs = List.length df).
  { unfold vs. now rewrite coerce_valor_length, infer_series_length, length_fmap. }
  eexists. split; [reflexivity|]. split.
  - rewrite recalc_df_length.
    apply build_rows_length; rewrite ?length_fmap; congruence.
  - intros i r Hi.
    assert (Hlt : (i < List.length df)%nat) by (eapply lookup_lt_Some; exact Hi).
    destruct (lookup_lt_is_Some_2 ns i ltac:(lia)) as [t Ht].
    destruct (lookup_lt_is_Some_2 vs i ltac:(lia)) as [x Hx].
    exists t, x. split; [exact Ht|].
    assert (Hwi : w !! i = Some (recalc_row r)).
    { unfold w. now rewrite recalc_df_lookup, Hi. }
    rewrite recalc_df_lookup.
    erewrite build_rows_Some;
      [| rewrite list_lookup_fmap, Ht; reflexivity
       | rewrite list_lookup_fmap, Hwi; reflexivity
       | rewrite list_lookup_fmap, Hwi; reflexivity
       | rewrite list_lookup_fmap, Hwi; reflexivity
       | exact Hx].
    simpl. rewrite recalc_row_fields. simpl. reflexivity.
Qed.

(** The text [astype(str)] gives for a name the reader takes for a missing
    value. *)
Lemma astype_str_infer_na (fields : list string) (i : nat) (s : string) :
  fields !! i = Some s -> is_na s = true ->
  astype_str (infer_series fields) !! i = Some "nan".
Proof.
  intros Hi Hs.
  assert (Hc : (classify <$> fields) !! i = Some TNa).
  { rewrite list_lookup_fmap, Hi. simpl. unfold classify. now rewrite Hs. }
  assert (Hlt : (i < List.length fields)%nat) by (eapply lookup_lt_Some; exact Hi).
  assert (Htx : astype_str (ObjCol (text_obj <$> fields)) !! i = Some "nan").
  { simpl. rewrite !list_lookup_fmap, Hi. simpl. unfold text_obj. now rewrite Hs. }
  assert (Hint : mapM token_int (classify <$> fields) = None).
  { destruct (mapM token_int (classify <$> fields)) as [l|] eqn:E1; [|reflexivity].
    pose proof (mapM_length _ _ _ E1) as Hl. rewrite length_fmap in Hl.
    destruct (lookup_lt_is_Some_2 l i ltac:(lia)) as [y Hy].
    destruct (mapM_lookup _ _ _ _ _ E1 Hy) as (x & Hx & Hxy).
    rewrite Hc in Hx. injection Hx as <-. discriminate Hxy. }
  assert (Hfl : forall l, mapM token_float (classify <$> fields) = Some l ->
                  astype_str (FloatCol l) !! i = Some "nan").
  { intros l E2. pose proof (mapM_length _ _ _ E2) as Hl.
    rewrite length_fmap in Hl.
    destruct (lookup_lt_is_Some_2 l i ltac:(lia)) as [y Hy].
    destruct (mapM_lookup _ _ _ _ _ E2 Hy) as (x & Hx & Hxy).
    rewrite Hc in Hx. injection Hx as <-. injection Hxy as <-.
    simpl. now rewrite list_lookup_fmap, Hy. }
  unfold infer_series. rewrite Hint.
  destruct (fora_int64 (classify <$> fields)).
  { destruct (csv_grande fields); [exact Htx | | exact Htx].
    destruct (mapM token_float (classify <$> fields)) as [l|] eqn:E2;
      [now apply Hfl | exact Htx]. }
  destruct (mapM token_float (classify <$> fields)) as [l|] eqn:E2;
    [now apply Hfl|].
  destruct (mapM token_bool (classify <$> fields)) as [l|] eqn:E3.
  { pose proof (mapM_length _ _ _ E3) as Hl. rewrite length_fmap in Hl.
    destruct (lookup_lt_is_Some_2 l i ltac:(lia)) as [y Hy].
    destruct (mapM_lookup _ _ _ _ _ E3 Hy) as (x & Hx & Hxy).
    rewrite Hc in Hx. injection Hx as <-. discriminate Hxy. }
  destruct (mapM token_boolobj (classify <$> fields)) as [l|] eqn:E4.
  { pose proof (mapM_length _ _ _ E4) as Hl. rewrite length_fmap in Hl.
    destruct (lookup_lt_is_Some_2 l i ltac:(lia)) as [y Hy].
    destruct (mapM_lookup _ _ _ _ _ E4 Hy) as (x & Hx & Hxy).
    rewrite Hc in Hx. injection Hx as <-. injection Hxy as <-.
    simpl. now rewrite list_lookup_fmap, Hy. }
  exact Htx.
Qed.

(** A table that was loaded has trimmed names. *)
Lemma carregar_df_trimmed (store : Store) (df : DataFrame) :
  carregar_df store = Some df -> Forall trimmed (nome <$> df).
Proof.
  destruct store as [csv|]; [|intros [= <-]; constructor].
  destruct (read_csv csv) as [raw|] eqn:Er;
    [|unfold carregar_df; rewrite Er; discriminate].
  rewrite (carregar_df_present _ _ Er).
  destruct (coerce_qtd (coluna raw "qtd_ganha")) as [g|]; [|discriminate].
  destruct (coerce_qtd (coluna raw "qtd_ficar")) as [f|]; [|discriminate].
  destruct (coerce_qtd (coluna raw "qtd_credito")) as [c|]; [|discriminate].
  simpl. intros [= <-].
  rewrite recalc_df_nomes. apply Forall_fmap, Forall_lookup.
  intros i r Hr. apply build_rows_lookup in Hr as (Hn & _).
  rewrite list_lookup_fmap in Hn.
  destruct (astype_str (coluna raw "nome") !! i) as [t|]; [|discriminate].
  simpl in Hn. injection Hn as Hn. simpl. rewrite <- Hn. apply strip_trimmed.
Qed.

(** The general form of the loss of a name on the way through the store:
    a ledger with one game, named NA, comes back with the game named as
    [astype(str)] names a missing value. *)
Lemma salvar_carregar_NA (store : Store) :
  exists v,
    carregar_df (salvar_df [jogo_NA] store)
    = Some [mkJogo (str_strip "nan") 3 1 2 v].
Proof.
  rewrite carregar_df_salvar_df. cbv zeta.
  change (recalc_df [jogo_NA]) with [jogo_NA].
  assert (Hn : infer_series (nome <$> [jogo_NA]) = FloatCol [F64.nan])
    by reflexivity.
  assert (Hg : coerce_qtd (infer_series ((fun r => int_repr (qtd_ganha r)) <$> [jogo_NA]))
               = Some [3%Z])
    by (apply (coerce_qtd_ints [3%Z]); repeat constructor; discriminate).
  assert (Hf : coerce_qtd (infer_series ((fun r => int_repr (qtd_ficar r)) <$> [jogo_NA]))
               = Some [1%Z])
    by (apply (coerce_qtd_ints [1%Z]); repeat constructor; discriminate).
  assert (Hc : coerce_qtd (infer_series ((fun r => int_repr (qtd_credito r)) <$> [jogo_NA]))
               = Some [2%Z])
    by (apply (coerce_qtd_ints [2%Z]); repeat constructor; discriminate).
  rewrite Hn, Hg, Hf, Hc. simpl.
  pose proof (coerce_valor_length (infer_series [float_field f10])) as Hl.
  rewrite infer_series_length in Hl.
  destruct (coerce_valor (infer_series [float_field f10]))
    as [|v [|v' l]]; try discriminate Hl.
  exists (valor_recalc v). simpl. now rewrite recalc_row_fields.
Qed.




(** X9. The save button writes the very file that the download of all
    records gives for the table loaded. *)
Theorem forcar_salvar_todos (store : Store) (df : DataFrame) :
  carregar_df store = Some df ->
  forcar_salvar store = Some (Some (df_para_csv (todos df))).
Proof.
  intros Hload. unfold forcar_salvar. rewrite Hload. simpl.
  destruct (carregar_df_normal store df Hload) as [Hre _].
  unfold salvar_df. rewrite Hre. do 2 f_equal.
  unfold to_csv, df_para_csv, todos. simpl. f_equal.
  rewrite <- list_fmap_compose. reflexivity.
Qed.



(** ** The credit report of a loaded table *)

Lemma filter_fmap_ext {A B : Type} (P Q : A -> Prop)
    `{!forall x, Decision (P x)} `{!forall x, Decision (Q x)}
    (h k : A -> B) (l : list A) :
  Forall (fun x => (P x <-> Q x) /\ (P x -> h x = k x)) l ->
  h <$> filter P l = k <$> filter Q l.
Proof.
  induction 1 as [|x l [Hpq Hhk] _ IH]; [reflexivity|].
  rewrite !filter_cons.
  destruct (decide (P x)) as [Hp|Hp], (decide (Q x)) as [Hq|Hq]; try tauto.
  rewrite !fmap_cons. f_equal; auto.
Qed.

(** X12. For a table that was loaded, in which no name is the text
    [astype(str)] gives for a missing value and the difference of the
    quantities won and kept fits 64 bits in every row, the download of the
    credit report lists, in order, exactly the games won more often than
    kept, each with its name, the quantities won and kept, their difference
    as the credit, the credit value (never the empty field) and the product
    of the difference and the credit value. *)
Theorem df_credito_carregado (store : Store) (df : DataFrame) :
  carregar_df store = Some df ->
  Forall (fun r => nome r <> str_strip "nan"
                   /\ int64 (qtd_ganha r - qtd_ficar r)) df ->
  df_para_csv (df_credito df)
  = {| header := cols_ordem;
       lines :=
         (fun r =>
            [nome r; int_repr (qtd_ganha r); int_repr (qtd_ficar r);
             int_repr (qtd_ganha r - qtd_ficar r);
             float_repr (valor_credito r);
             float_field
               (F64.mul (F64.of_Z (qtd_ganha r - qtd_ficar r)) (valor_credito r))])
         <$> filter (fun r => (qtd_ficar r < qtd_ganha r)%Z) df |}.
Proof.
  intros Hload Hdf.
  destruct (carregar_df_normal store df Hload) as [Hre _].
  unfold df_para_csv, df_credito. simpl. f_equal.
  rewrite <- list_fmap_compose.
  apply filter_fmap_ext, Forall_lookup. intros i r Hi.
  destruct (Forall_lookup_1 _ _ _ _ Hdf Hi) as [_ Hd].
  pose proof (recalc_df_fixed_row df i r Hre Hi) as Hr.
  rewrite recalc_row_fields in Hr.
  assert (Hc : qtd_credito r = Z.max 0 (qtd_ganha r - qtd_ficar r)).
  { rewrite <- Hr at 1. simpl. now apply credito_max. }
  assert (Hv : F64.isnan (valor_credito r) = false).
  { rewrite <- Hr. simpl. apply valor_recalc_not_nan. }
  split; [lia|]. intros Hpos. simpl.
  unfold total_credito, float_field at 1. rewrite Hv.
  replace (qtd_credito r) with (qtd_ganha r - qtd_ficar r)%Z by lia.
  reflexivity.
Qed.

End Ledger.

(** * The ledger of the examples

    The texts of the examples are made of ASCII characters, on which
    [str.strip] and [str.lower] are [AsciiStr.strip] and [AsciiStr.lower];
    the frame library is that of the examples. *)

Abbreviation upsert_ex := (upsert_jogo AsciiStr.strip AsciiStr.lower).
Abbreviation key_ex := (name_key AsciiStr.strip AsciiStr.lower).
Abbreviation key_match_ex := (key_match AsciiStr.strip AsciiStr.lower).
Abbreviation trimmed_ex := (trimmed AsciiStr.strip).
Abbreviation read_csv_ex := (read_csv float_exemplo grande_exemplo).
Abbreviation carregar_ex :=
  (carregar_df AsciiStr.strip repr_exemplo float_exemplo numeric_exemplo
     grande_exemplo uint64_exemplo cast_exemplo).
Abbreviation salvar_ex := (salvar_df repr_exemplo).
Abbreviation cadastrar_ex :=
  (cadastrar AsciiStr.strip AsciiStr.lower repr_exemplo float_exemplo
     numeric_exemplo grande_exemplo uint64_exemplo cast_exemplo).
Abbreviation atualizar_ex :=
  (atualizar AsciiStr.strip AsciiStr.lower repr_exemplo float_exemplo
     numeric_exemplo grande_exemplo uint64_exemplo cast_exemplo).

(** A text of which [AsciiStr.strip] leaves something. *)
Ltac nao_vazio :=
  let H := fresh "H" in intros H; vm_compute in H; discriminate H.

(** An integer of the examples lies within 64 bits. *)
Ltac cabe_64 :=
  unfold cabe, cabe_nova, qtd_form, dif_int64, linha_int64, int64, int64_min,
    int64_max;
  simpl; repeat split; try exact I; lia.

(** ** [upsert_jogo] *)

(** [upsert_jogo_blank_name] at a name of three spaces. *)
Lemma upsert_jogo_blank_name_witness :
  upsert_ex [catan] (Some "   ") (Some 2%Z) (Some 0%Z) (Some f10) = Some [catan].
Proof.
  apply (upsert_jogo_blank_name AsciiStr.strip AsciiStr.lower ascii_strip_empty).
  right. exists "   ". split; reflexivity.
Defined.

(** C1, as stated, fails: a credit value of zero given to [upsert_jogo]
    is not what the returned row holds, for [recalc_df] has replaced it by
    the default; and a row whose stored name is not trimmed is not the row
    [upsert_jogo] updates, although its trimmed name matches: its
    [qtd_ganha] stays 3 when 2 are added, and a row is appended. *)
Lemma upsert_jogo_zero_valor :
  (upsert_ex [catan] (Some "catan") None None (Some F64.zero)
   = Some [mkJogo "Catan" 3 1 2 DEFAULT_CREDITO]
   /\ F64.eqb DEFAULT_CREDITO F64.zero = false)
  /\ (key_match_ex "Catan" catan_espaco
      /\ upsert_ex [catan_espaco] (Some "Catan") (Some 2%Z) None None
         = Some [catan_espaco; mkJogo "Catan" 2 0 2 DEFAULT_CREDITO]).
Proof. repeat split. Qed.

(** [upsert_jogo_updates_match] at the scenario of the specification:
    two more units of Catan, registered in lower case. *)
Lemma upsert_jogo_updates_match_witness :
  exists df' r',
    upsert_ex [catan] (Some "catan") (Some 2%Z) None None = Some df'
    /\ df' !! 0%nat = Some r'
    /\ nome r' = "Catan"
    /\ qtd_ganha r' = (3 + 2)%Z
    /\ qtd_ficar r' = 1%Z
    /\ valor_credito r' = valor_recalc f10
    /\ qtd_credito r' = Z.max 0 (5 - 1).
Proof.
  destruct (upsert_jogo_updates_match AsciiStr.strip AsciiStr.lower
              [catan] "catan" (Some 2%Z) None None 0 catan)
    as (df' & r' & H1 & H2 & H3 & H4 & H5 & H6 & H7).
  - nao_vazio.
  - repeat constructor.
  - reflexivity.
  - reflexivity.
  - intros [|j] r'; [reflexivity | discriminate].
  - cabe_64.
  - exists df', r'. do 6 (split; [assumption|]).
    rewrite H7; [now rewrite H4, H5|].
    unfold dif_int64, linha_int64. rewrite H4, H5. cabe_64.
Defined.

(** C4, as stated, fails: the credit of the new row is computed by a
    subtraction of 64-bit columns, which wraps around. In the table loaded
    from the file [csv_catan], which holds Catan, registering Risk with
    9223372036854775807 units won and -1 to keep gives the new row the
    credit 0, where the maximum of 0 and the difference of the two
    quantities is 9223372036854775808. *)
Lemma upsert_jogo_credito_transborda :
  carregar_ex (Some csv_catan) = Some [mkJogo "Catan" 3 1 2 DEFAULT_CREDITO]
  /\ (forall r, r ∈ [mkJogo "Catan" 3 1 2 DEFAULT_CREDITO] ->
                ~ key_match_ex "Risk" r)
  /\ upsert_ex [mkJogo "Catan" 3 1 2 DEFAULT_CREDITO] (Some "Risk")
       (Some int64_max) (Some (-1)%Z) None
     = Some [mkJogo "Catan" 3 1 2 DEFAULT_CREDITO;
             mkJogo "Risk" int64_max (-1) 0 DEFAULT_CREDITO]
  /\ Z.max 0 (int64_max - -1) = 9223372036854775808%Z.
Proof.
  split; [reflexivity|]. split; [|split; reflexivity].
  intros r Hr. apply list_elem_of_singleton in Hr as ->. discriminate.
Qed.

(** [upsert_jogo_inserts] at the scenario of the specification: Risk,
    with no price, into the empty table. *)
Lemma upsert_jogo_inserts_witness :
  upsert_ex [] (Some "Risk") (Some 1%Z) None None
  = Some [mkJogo "Risk" 1 0 1 DEFAULT_CREDITO].
Proof.
  apply (upsert_jogo_inserts AsciiStr.strip AsciiStr.lower
           [] "Risk" (Some 1%Z) None None).
  - nao_vazio.
  - intros r Hr. now apply not_elem_of_nil in Hr.
  - cabe_64.
Defined.

(** The default price scenarios of the specification. *)
Example upsert_risk_no_price :
  upsert_ex [] (Some "Risk") (Some 1%Z) None None
  = Some [mkJogo "Risk" 1 0 1 DEFAULT_CREDITO].
Proof. reflexivity. Qed.

Example upsert_risk_zero_price :
  upsert_ex [] (Some "Risk") (Some 1%Z) None (Some F64.zero)
  = Some [mkJogo "Risk" 1 0 1 DEFAULT_CREDITO].
Proof. reflexivity. Qed.

(** The upsert scenarios of the specification. *)
Example upsert_catan_new :
  upsert_ex [] (Some "Catan") (Some 3%Z) (Some 1%Z) (Some f10) = Some [catan].
Proof. reflexivity. Qed.

Example upsert_catan_additive :
  upsert_ex [catan] (Some "catan") (Some 2%Z) None None
  = Some [mkJogo "Catan" 5 1 4 f10].
Proof. reflexivity. Qed.

Example upsert_catan_keep :
  upsert_ex [catan] (Some "Catan") None (Some 5%Z) None
  = Some [mkJogo "Catan" 3 5 0 f10].
Proof. reflexivity. Qed.

(** C3, as stated, fails: a stored name that is not trimmed is not found
    by [upsert_jogo], which then appends a second row whose name differs
    from the stored one by surrounding whitespace only. *)
Lemma upsert_jogo_untrimmed_duplicate :
  NoDup (key_ex <$> (nome <$> [catan_espaco]))
  /\ exists df',
       upsert_ex [catan_espaco] (Some "Catan") (Some 2%Z) None None = Some df'
       /\ ~ NoDup (key_ex <$> (nome <$> df')).
Proof.
  split; [apply NoDup_singleton|].
  eexists. split; [reflexivity|].
  intros H. apply NoDup_cons in H as [H _]. apply H. now left.
Qed.

(** [upsert_jogo_preserves_unique_names] at the table holding Catan: two
    more units registered under a name with surrounding spaces. *)
Lemma upsert_jogo_preserves_unique_names_witness :
  exists df',
    upsert_ex [catan] (Some "  catan ") (Some 2%Z) None None = Some df'
    /\ Forall trimmed_ex (nome <$> df')
    /\ NoDup (key_ex <$> (nome <$> df'))
    /\ upsert_ex [catan] (Some "  Catan ") (Some 2%Z) None None
       = upsert_ex [catan] (Some "Catan") (Some 2%Z) None None.
Proof.
  destruct (upsert_jogo_preserves_unique_names AsciiStr.strip AsciiStr.lower
              ascii_strip_idem ascii_strip_empty
              [catan] (Some "  catan ") (Some 2%Z) None None)
    as (Hnomes & Hsome & Hstrip).
  - repeat constructor.
  - apply NoDup_singleton.
  - destruct Hsome as [df' E].
    + intros r Hr. apply list_elem_of_singleton in Hr as ->. cabe_64.
    + cabe_64.
    + exists df'. split; [exact E|].
      destruct (Hnomes df' E) as [Ht Hn].
      split; [exact Ht|]. split; [exact Hn|]. reflexivity.
Defined.

(** C10, as stated, fails: on a table with a stored name that is not
    trimmed, a row matches the given name (both trimmed and lower-cased)
    and the row count still grows by one. *)
Lemma upsert_jogo_untrimmed_grows :
  (exists r, r ∈ [catan_espaco] /\ key_match_ex "Catan" r)
  /\ exists df',
       upsert_ex [catan_espaco] (Some "Catan") (Some 2%Z) None None = Some df'
       /\ List.length df' = S (List.length [catan_espaco]).
Proof.
  split.
  - exists catan_espaco. split; [now left | reflexivity].
  - eexists. split; reflexivity.
Qed.

(** [upsert_jogo_frame] at the table holding Catan and Risk: for the name
    Azul, which no row matches, a row is appended and both rows stay; for
    the name catan, which the first row matches, the row count is
    unchanged and the row of Risk stays. *)
Lemma upsert_jogo_frame_witness :
  let df := [catan; mkJogo "Risk" 1 0 1 f20] in
  (exists df' r,
      upsert_ex df (Some "Azul") (Some 1%Z) None None = Some df'
      /\ df' = recalc_df df ++ [r] /\ nome r = "Azul"
      /\ List.length df' = 3%nat
      /\ nome <$> take 2 df' = ["Catan"; "Risk"])
  /\ (exists df',
        upsert_ex df (Some " catan ") (Some 2%Z) None None = Some df'
        /\ List.length df' = 2%nat
        /\ nome <$> take 2 df' = ["Catan"; "Risk"]
        /\ exists r',
             df' !! 1%nat = Some r'
             /\ nome r' = "Risk" /\ qtd_ganha r' = 1%Z /\ qtd_ficar r' = 0%Z
             /\ qtd_credito r' = Z.max 0 (1 - 0)
             /\ valor_credito r' = valor_recalc f20).
Proof.
  intros df.
  assert (Ht : Forall trimmed_ex (nome <$> df)) by (repeat constructor).
  assert (Hc : forall g, (0 <= g <= 10)%Z ->
                 forall r, r ∈ df -> cabe (Some g) None r).
  { intros g Hg r Hr. apply elem_of_cons in Hr as [->|Hr]; [cabe_64|].
    apply list_elem_of_singleton in Hr as ->. cabe_64. }
  split.
  - destruct (upsert_jogo_frame AsciiStr.strip AsciiStr.lower
                ascii_strip_idem
                df "Azul" (Some 1%Z) None None)
      as [Hsome Hres]; [nao_vazio | exact Ht | cabe_64 | cabe_64 |].
    destruct Hsome as [df' E]; [apply Hc; lia | cabe_64 |].
    destruct (Hres df' E) as (_ & Hord & Hnew & _).
    destruct Hnew as [(r & Hr & Hn) Hlen].
    { intros r Hr. apply elem_of_cons in Hr as [->|Hr]; [discriminate|].
      apply list_elem_of_singleton in Hr as ->. discriminate. }
    exists df', r. repeat split; assumption.
  - destruct (upsert_jogo_frame AsciiStr.strip AsciiStr.lower
                ascii_strip_idem
                df " catan " (Some 2%Z) None None)
      as [Hsome Hres]; [nao_vazio | exact Ht | cabe_64 | cabe_64 |].
    destruct Hsome as [df' E]; [apply Hc; lia | cabe_64 |].
    destruct (Hres df' E) as (Hrows & Hord & _ & Hlen).
    exists df'. split; [exact E|]. split.
    { apply Hlen. exists catan. split; [now left | reflexivity]. }
    split; [exact Hord|].
    assert (Hl : List.length df' = 2%nat).
    { apply Hlen. exists catan. split; [now left | reflexivity]. }
    destruct (lookup_lt_is_Some_2 df' 1) as [r' Hr']; [lia|].
    assert (Hn : nome r' = "Risk").
    { pose proof (f_equal (fun l => l !! 1%nat) Hord) as H1. simpl in H1.
      rewrite list_lookup_fmap, lookup_take_lt, Hr' in H1 by lia.
      now injection H1. }
    destruct (Hrows 1%nat r' Hr') as (r & Hr & H1 & H2 & H3 & H4 & H5).
    { unfold key_match. rewrite Hn. discriminate. }
    injection Hr as <-. exists r'. simpl in *.
    repeat split; try assumption. apply H4. cabe_64.
Defined.

(** [upsert_jogo_first_match] at a table whose two rows are named CATAN
    and Catan: two more units registered as catan go to the first. *)
Lemma upsert_jogo_first_match_witness :
  upsert_ex [catan_maiusculo; catan] (Some "catan ") (Some 2%Z) None None
  = Some [mkJogo "CATAN" 3 0 3 f10; catan].
Proof.
  apply (upsert_jogo_first_match AsciiStr.strip AsciiStr.lower
           [catan_maiusculo; catan] "catan " (Some 2%Z) None None
           0 catan_maiusculo).
  - nao_vazio.
  - reflexivity.
  - reflexivity.
  - intros j r' Hj. lia.
  - cabe_64.
Defined.

(** [upsert_jogo_valida] at the table holding Catan: Risk is registered
    with one unit won, four to keep and the credit value 0.0. *)
Lemma upsert_jogo_valida_witness :
  exists df',
    upsert_ex [catan] (Some "Risk") (Some 1%Z) (Some 4%Z) (Some F64.zero)
    = Some df'
    /\ Forall (fun r => linha_valida r /\ linha_recalculada r) df'.
Proof.
  apply (upsert_jogo_valida AsciiStr.strip AsciiStr.lower).
  - nao_vazio.
  - apply Forall_singleton. unfold linha_valida. cabe_64.
  - cabe_64.
  - cabe_64.
  - reflexivity.
  - intros r Hr. apply list_elem_of_singleton in Hr as ->. cabe_64.
Defined.

(** [upsert_jogo_form_defaults] at a table of two games, Risk selected. *)
Lemma upsert_jogo_form_defaults_witness :
  upsert_ex [catan_maiusculo; mkJogo "Risk" 2 2 0 f10] (Some "Risk") (Some 0%Z)
    (Some 2%Z) (Some f10)
  = Some [catan_maiusculo; mkJogo "Risk" 2 2 0 f10].
Proof.
  apply (upsert_jogo_form_defaults AsciiStr.strip AsciiStr.lower
           [catan_maiusculo; mkJogo "Risk" 2 2 0 f10]
           "Risk" (mkJogo "Risk" 2 2 0 f10)).
  - reflexivity.
  - repeat constructor.
  - apply NoDup_cons. split; [|apply NoDup_singleton].
    intros H. apply list_elem_of_singleton in H. discriminate H.
  - reflexivity.
  - cabe_64.
Defined.

(** [upsert_jogo_twice] at the table holding Catan: Risk is registered
    with one unit, then with two more and one to keep. *)
Lemma upsert_jogo_twice_witness :
  exists df1 df2,
    upsert_ex [catan] (Some " risk") (Some 1%Z) None None = Some df1
    /\ upsert_ex df1 (Some "RISK ") (Some 2%Z) (Some 1%Z) None = Some df2
    /\ upsert_ex [catan] (Some " risk") (Some 3%Z) (Some 1%Z) None = Some df2.
Proof.
  apply (upsert_jogo_twice AsciiStr.strip AsciiStr.lower ascii_lower_empty
           [catan] " risk" "RISK " (Some 1%Z) (Some 2%Z)
           None (Some 1%Z) None None).
  - reflexivity.
  - cabe_64.
  - cabe_64.
  - cabe_64.
  - cabe_64.
  - cabe_64.
  - intros r Hr. apply list_elem_of_singleton in Hr as ->. cabe_64.
Defined.

(** ** Reports *)

(** The export scenario of the specification: of the rows A (won 2, keep
    0) and B (won 3, keep 1), only B is to bring, and both are for credit. *)
Example reports_scenario :
  let df := recalc_df [mkJogo "A" 2 0 0 f10; mkJogo "B" 3 1 0 f10] in
  rows (df_trazer df) = [[CStr "B"; CInt 3; CInt 1]]
  /\ rows (df_credito df)
     = [[CStr "A"; CInt 2; CInt 0; CInt 2; CFloat f10; CFloat f20];
        [CStr "B"; CInt 3; CInt 1; CInt 2; CFloat f10; CFloat f20]].
Proof. split; reflexivity. Qed.

(** ** [carregar_df] and [salvar_df] *)

(** C5, as stated, fails: whatever [str.strip] is and whatever the library
    makes of the text of floats, a stored quantity of -3 is loaded as -3,
    which is an integer and is not non-negative. *)
Lemma carregar_df_keeps_negative :
  (forall st fr cf tn cg nu cx,
      carregar_df st fr cf tn cg nu cx (Some csv_negativo)
      = Some [mkJogo (st "0") (-3) 0 0 DEFAULT_CREDITO])
  /\ (-3 < 0)%Z.
Proof. split; [intros st fr cf tn cg nu cx; reflexivity | reflexivity]. Qed.

(** What [carregar_df] makes of the file [csv_texto]: the name is trimmed,
    the quantity that does not parse is 0, and the columns the file does
    not have hold 0 and the default. *)
Example carregar_df_texto :
  carregar_ex (Some csv_texto) = Some [mkJogo "Catan" 0 0 0 DEFAULT_CREDITO].
Proof. reflexivity. Qed.

(** [carregar_df_coerces] at the absent store and at the file [csv_texto]
    read with the library of the examples. *)
Lemma carregar_df_coerces_witness :
  carregar_ex None = Some []
  /\ is_Some (carregar_ex (Some csv_texto))
  /\ exists raw df,
       read_csv_ex csv_texto = Some raw
       /\ carregar_ex (Some csv_texto) = Some df
       /\ List.length df = 1%nat
       /\ recalc_df df = df
       /\ forall i r,
            df !! i = Some r ->
            nome_lido AsciiStr.strip repr_exemplo (cols raw !! "nome") i (nome r)
            /\ qtd_lida numeric_exemplo cast_exemplo (cols raw !! "qtd_ganha") i
                 (qtd_ganha r)
            /\ qtd_lida numeric_exemplo cast_exemplo (cols raw !! "qtd_ficar") i
                 (qtd_ficar r)
            /\ int64 (qtd_ganha r) /\ int64 (qtd_ficar r)
            /\ qtd_credito r = Z.max 0 (wrap64 (qtd_ganha r - qtd_ficar r))
            /\ (int64 (qtd_ganha r - qtd_ficar r) ->
                qtd_credito r = Z.max 0 (qtd_ganha r - qtd_ficar r))
            /\ valor_lido numeric_exemplo (cols raw !! "valor_credito") i
                 (valor_credito r).
Proof.
  destruct (carregar_df_coerces AsciiStr.strip repr_exemplo float_exemplo
              numeric_exemplo grande_exemplo uint64_exemplo cast_exemplo)
    as (Hnone & Hsome & Hrows).
  split; [exact Hnone|].
  destruct (read_csv_ex csv_texto) as [raw|] eqn:E1;
    [|vm_compute in E1; discriminate E1].
  assert (Hs : is_Some (carregar_ex (Some csv_texto))).
  { apply (Hsome csv_texto raw E1);
      vm_compute in E1; injection E1 as <-; vm_compute; repeat constructor. }
  split; [exact Hs|]. destruct Hs as [df E2].
  exists raw, df. split; [reflexivity|]. split; [exact E2|].
  exact (Hrows csv_texto raw df E1 E2).
Defined.

(** C6 at the table [[jogo_NA]]: the name is trimmed and unique, the
    table is its own recomputation, and yet loading right after saving
    returns a row named ["nan"]: the reader takes the text NA for a missing
    value, whatever the library makes of the text of floats. *)
Theorem salvar_carregar_nome_NA (float_repr : float -> string)
    (csv_float : string -> option float) (to_numeric_str : string -> option num)
    (csv_grande : list string -> grande) (num_uint64 : list Z -> bool)
    (cast_fora : float -> Z) (store : Store) :
  trimmed_ex (nome jogo_NA)
  /\ recalc_df [jogo_NA] = [jogo_NA]
  /\ exists v,
       carregar_df AsciiStr.strip float_repr csv_float to_numeric_str
         csv_grande num_uint64 cast_fora (salvar_df float_repr [jogo_NA] store)
       = Some [mkJogo "nan" 3 1 2 v].
Proof.
  split; [reflexivity|]. split; [reflexivity|].
  exact (salvar_carregar_NA AsciiStr.strip float_repr csv_float to_numeric_str
           csv_grande num_uint64 cast_fora store).
Qed.




(** [carregar_df_infinito] at the file whose quantity won is the text
    inf, for a reader that takes it for the infinite float. *)
Lemma carregar_df_infinito_witness :
  carregar_df AsciiStr.strip repr_exemplo float_inf_exemplo numeric_exemplo
    grande_exemplo uint64_exemplo cast_exemplo (Some csv_infinito) = None
  /\ forcar_salvar AsciiStr.strip repr_exemplo float_inf_exemplo numeric_exemplo
       grande_exemplo uint64_exemplo cast_exemplo (Some csv_infinito) = None
  /\ forall n g f v,
       cadastrar AsciiStr.strip AsciiStr.lower repr_exemplo float_inf_exemplo
         numeric_exemplo grande_exemplo uint64_exemplo cast_exemplo (Some csv_infinito) n g f v
       = None.
Proof.
  eapply (carregar_df_infinito AsciiStr.strip AsciiStr.lower repr_exemplo
            float_inf_exemplo numeric_exemplo grande_exemplo uint64_exemplo cast_exemplo
            csv_infinito _ "qtd_ganha" [S754_infinity false]).
  - reflexivity.
  - apply elem_of_cons. now left.
  - reflexivity.
  - apply Exists_cons_hd. reflexivity.
Defined.

(** [forcar_salvar_todos] at the file [csv_texto], with the library of
    the examples. *)
Lemma forcar_salvar_todos_witness :
  forcar_salvar AsciiStr.strip repr_exemplo float_exemplo numeric_exemplo
    grande_exemplo uint64_exemplo cast_exemplo (Some csv_texto)
  = Some (Some (df_para_csv repr_exemplo
                  (todos [mkJogo "Catan" 0 0 0 DEFAULT_CREDITO]))).
Proof.
  apply forcar_salvar_todos. reflexivity.
Defined.



(** [df_credito_carregado] at the file [csv_catan], with the library of
    the examples: the credit of 2 units at the default value 59.0 comes to
    118.0. *)
Lemma df_credito_carregado_witness :
  carregar_ex (Some csv_catan) = Some [mkJogo "Catan" 3 1 2 DEFAULT_CREDITO]
  /\ df_para_csv repr_exemplo (df_credito [mkJogo "Catan" 3 1 2 DEFAULT_CREDITO])
     = {| header := cols_ordem;
          lines := [["Catan"; "3"; "1"; "2"; "59.0"; "118.0"]] |}.
Proof.
  split; [reflexivity|].
  apply (df_credito_carregado AsciiStr.strip repr_exemplo float_exemplo
           numeric_exemplo grande_exemplo uint64_exemplo cast_exemplo
           (Some csv_catan) [mkJogo "Catan" 3 1 2 DEFAULT_CREDITO]).
  - reflexivity.
  - apply Forall_singleton. split; [discriminate | cabe_64].
Defined.
